(** * Downly video downloader: the background task pipeline of [api/main.py]

    A shallow embedding of the format selector
    ([get_optimized_format_selector]), of the progress-line mapper inside
    [run_with_progress], and of the two job pipelines
    ([download_and_process_video], [download_and_process_audio]) together
    with the job store [active_tasks] they write to; then of the command
    line of the transcode tool and of the information request
    ([get_video_info_async], [get_video_info]).

    Conventions.
    - A Python [str] is a [string]; a character stands for the code point
      of the same number, so the model covers text in the range 0..255.
    - A Python [int] is a [Z].
    - The store [active_tasks], a [dict] keyed by task id, is a
      [gmap string status_record]; the dictionaries stored in it have a
      fixed set of keys and are records with optional fields.
    - The float expression [int((d / t) * 40)] is evaluated over the
      rationals [Q]: rounding of binary floating point is not modelled.
    - The two external tools are given by their observable behaviour (the
      lines printed, the exit code, the captured error text, the elapsed
      times read by the polling loop); the command line of the transcode
      tool is built apart from the pipelines ([ffmpeg_cmd]), since nothing
      the pipeline writes depends on it.
    - The output of the information tool is given after [json.loads], with
      the keys the function reads, typed as the tool documents them. *)

From Stdlib Require Import ZArith String Ascii DecimalString DecimalZ QArith Qround Lia.
From stdpp Require Import gmap strings list fin_maps sorting.

Open Scope string_scope.
Open Scope Z_scope.

(** ** Python string primitives *)

Module PyStr.

(** [str.isspace] on the code points 0..255. *)
Definition is_space (c : ascii) : bool :=
  let n := N_of_ascii c in
  ((9 <=? n) && (n <=? 13) || (28 <=? n) && (n <=? 32)
   || (n =? 133) || (n =? 160))%N.

Fixpoint lstrip (s : string) : string :=
  match s with
  | String c r => if is_space c then lstrip r else s
  | EmptyString => EmptyString
  end.

Fixpoint rstrip (s : string) : string :=
  match s with
  | String c r =>
      let r' := rstrip r in
      if is_space c && String.eqb r' "" then "" else String c r'
  | EmptyString => EmptyString
  end.

(** [s.strip()] *)
Definition strip (s : string) : string := rstrip (lstrip s).

(** [s.startswith(p)] *)
Definition startswith (p s : string) : bool := String.prefix p s.

(** [sub in s] *)
Fixpoint contains (sub s : string) : bool :=
  String.prefix sub s ||
  match s with
  | String _ r => contains sub r
  | EmptyString => false
  end.

(** [s.split(sep)] for a separator of one character. *)
Fixpoint split (sep : ascii) (s : string) : list string :=
  match s with
  | EmptyString => [""]
  | String c r =>
      if Ascii.eqb c sep then "" :: split sep r
      else match split sep r with
           | w :: ws => String c w :: ws
           | [] => [String c ""]
           end
  end.

(** [s.replace(old, new)] for a non-empty [old]: occurrences are replaced
    from left to right and do not overlap. [skip] counts the characters of
    an occurrence that are still to be dropped. *)
Fixpoint replace_from (skip : nat) (old new s : string) : string :=
  match s with
  | EmptyString => EmptyString
  | String c r =>
      match skip with
      | S k => replace_from k old new r
      | O =>
          if String.prefix old s
          then new ++ replace_from (String.length old - 1) old new r
          else String c (replace_from O old new r)
      end
  end.

Definition replace (old new s : string) : string := replace_from O old new s.

(** [str(n)] for an [int]: decimal digits, with a minus sign when negative
    ([Z.to_int 0] is the digit [0], so zero prints as ["0"]). *)
Definition str (n : Z) : string := NilEmpty.string_of_int (Z.to_int n).

(** The digits of an integer literal may be grouped by single underscores;
    [prev] tells whether the previous character was not an underscore. *)
Fixpoint drop_underscores (prev : bool) (s : string) : option string :=
  match s with
  | EmptyString => if prev then Some "" else None
  | String c r =>
      if Ascii.eqb c "_"
      then (if prev then drop_underscores false r else None)
      else String c <$> drop_underscores true r
  end.

Definition parse_digits (s : string) : option Z :=
  ds ← drop_underscores false s;
  Z.of_uint <$> NilEmpty.uint_of_string ds.

(** [int(s)]: [None] stands for [ValueError]. *)
Definition int (s : string) : option Z :=
  match strip s with
  | String c r =>
      if Ascii.eqb c "-" then Z.opp <$> parse_digits r
      else if Ascii.eqb c "+" then parse_digits r
      else parse_digits (String c r)
  | EmptyString => None
  end.

End PyStr.

(** ** Exceptions *)

(** The exception classes the pipeline tells apart: [except ValueError],
    [except asyncio.TimeoutError] and [except Exception]. [BaseOnly] is an
    exception that is not a subclass of [Exception]
    (such as [asyncio.CancelledError]). *)
Inductive exn_class := ValueError | TimeoutError | OtherException | BaseOnly.

Record exn := { exn_cls : exn_class; exn_str : string }.

Inductive res (A : Type) : Type :=
| Ret (a : A)
| Raise (e : exn).
Arguments Ret {A} a.
Arguments Raise {A} e.

#[global] Instance res_ret : MRet res := @Ret.
#[global] Instance res_bind : MBind res := fun A B f m =>
  match m with
  | Ret a => f a
  | Raise e => Raise e
  end.

(** [try: body  except ValueError: handler] *)
Definition try_except_ValueError {A} (body handler : res A) : res A :=
  match body with
  | Raise {| exn_cls := ValueError |} => handler
  | r => r
  end.

(** [int(s)] as a computation that may raise. *)
Definition int_of_str (s : string) : res Z :=
  match PyStr.int s with
  | Some n => Ret n
  | None =>
      Raise {| exn_cls := ValueError;
               exn_str := "invalid literal for int() with base 10" |}
  end.

(** Truth value of an [Optional[str]]: [None] and the empty string are false. *)
Definition truthy (o : option string) : bool :=
  match o with
  | Some (String _ _) => true
  | _ => false
  end.

(** ** Format selector *)

Section FormatSelector.
Import PyStr.

(** The dictionary [format_selectors]. *)
Definition format_selectors : gmap string string :=
  <["best" := "best[ext=mp4]/best"]>
  (<["high" := "best[height<=1080][ext=mp4]/best[height<=1080]"]>
  (<["medium" := "best[height<=720][ext=mp4]/best[height<=720]"]>
  (<["low" := "best[height<=480][ext=mp4]/best[height<=480]"]> ∅))).

(** [format_selectors.get(quality, "best[ext=mp4]/best")] *)
Definition quality_selector (quality : string) : string :=
  default "best[ext=mp4]/best" (format_selectors !! quality).

(** The audio part: lines 340-349 of the selector, and lines 688-696 of
    [download_and_process_audio], which are the same code. *)
Definition audio_selector (selected_audio_format : option string) : res string :=
  match selected_audio_format with
  | Some sa =>
      if truthy (Some sa) && contains "kbps" sa then
        try_except_ValueError
          (bitrate ← int_of_str (replace "kbps" "" sa);
           mret ("bestaudio[abr<=" ++ str (bitrate + 10)
                   ++ "][abr>=" ++ str (bitrate - 10) ++ "]"))
          (mret "bestaudio")
      else mret "bestaudio"
  | None => mret "bestaudio"
  end.

(** The body of [if selected_video_format:], inside its [try]. *)
Definition explicit_selector (sv : string) (selected_audio_format : option string)
  : res string :=
  resolution ← int_of_str (replace "p" "" sv);
  let video_selector := "bestvideo[height=" ++ str resolution ++ "]" in
  audio ← audio_selector selected_audio_format;
  mret (video_selector ++ "+" ++ audio
          ++ "/best[height=" ++ str resolution ++ "]/best").

Definition get_optimized_format_selector
    (quality : string) (selected_video_format selected_audio_format : option string)
  : res string :=
  match selected_video_format with
  | Some sv =>
      if truthy (Some sv) then
        try_except_ValueError
          (explicit_selector sv selected_audio_format)
          (mret (quality_selector quality))
      else mret (quality_selector quality)
  | None => mret (quality_selector quality)
  end.

(** The [-f] argument of the audio job: [f"{audio_selector}/bestaudio/best"]. *)
Definition audio_format_argument (selected_audio_format : option string) : res string :=
  audio ← audio_selector selected_audio_format;
  mret (audio ++ "/bestaudio/best").

End FormatSelector.

(** ** Job store *)

(** A status record is one of the dictionaries stored in [active_tasks]:
    the keys [status], [progress] and [message] are present in every
    dictionary the program builds, [download_url] and [error] only in some. *)
Record status_record := {
  status : string;
  progress : Z;
  message : string;
  download_url : option string;
  error : option string
}.

(** The three kinds of statement that write to the job store. *)
Inductive write :=
| Assign (r : status_record)   (* active_tasks[task_id] = {...} *)
| SetProgress (n : Z)          (* active_tasks[task_id]["progress"] = n *)
| SetMessage (s : string).     (* active_tasks[task_id]["message"] = s *)

Definition set_progress (n : Z) (r : status_record) : status_record :=
  {| status := status r; progress := n; message := message r;
     download_url := download_url r; error := error r |}.

Definition set_message (s : string) (r : status_record) : status_record :=
  {| status := status r; progress := progress r; message := s;
     download_url := download_url r; error := error r |}.

(** One write on the store; [None] is the [KeyError] of an item assignment
    on a missing entry. *)
Definition exec_write (task_id : string) (w : write)
    (active_tasks : gmap string status_record) : option (gmap string status_record) :=
  match w with
  | Assign r => Some (<[task_id := r]> active_tasks)
  | SetProgress n =>
      r ← active_tasks !! task_id; Some (<[task_id := set_progress n r]> active_tasks)
  | SetMessage s =>
      r ← active_tasks !! task_id; Some (<[task_id := set_message s r]> active_tasks)
  end.

(** The store after each write statement of a trace, in program order. A
    status poll reads one of these stores: any of them while the writes come
    from the line-reading thread of the Windows branch, and only those at an
    [await] while they come from the coroutine itself. *)
Fixpoint snapshots (task_id : string) (active_tasks : gmap string status_record)
    (ws : list write) : list (gmap string status_record) :=
  match ws with
  | [] => []
  | w :: ws' =>
      match exec_write task_id w active_tasks with
      | Some s => s :: snapshots task_id s ws'
      | None => []
      end
  end.

(** [get_task_status]: [None] is the 404 answer. *)
Definition get_task_status (task_id : string)
    (active_tasks : gmap string status_record) : option status_record :=
  active_tasks !! task_id.

(** The record of [task_id] in each of these stores. *)
Definition observed (task_id : string) (active_tasks : gmap string status_record)
    (ws : list write) : list status_record :=
  omap (get_task_status task_id) (snapshots task_id active_tasks ws).

Definition is_terminal (r : status_record) : bool :=
  String.eqb (status r) "completed" || String.eqb (status r) "failed".

(** ** Tasks: a trace of writes and the way control leaves *)

Inductive outcome (A : Type) : Type :=
| Val (a : A)       (* falls through with a value *)
| Return_           (* a [return] statement was executed *)
| Exc (e : exn)     (* an exception is propagating *)
| Block.            (* an [await] that never resumes *)
Arguments Val {A} a.
Arguments Return_ {A}.
Arguments Exc {A} e.
Arguments Block {A}.

Definition task (A : Type) : Type := (list write * outcome A)%type.

#[global] Instance task_ret : MRet task := fun A a => ([], Val a).
#[global] Instance task_bind : MBind task := fun A B f m =>
  match m with
  | (ws, Val a) => let '(ws', o) := f a in ((ws ++ ws')%list, o)
  | (ws, Return_) => (ws, Return_)
  | (ws, Exc e) => (ws, Exc e)
  | (ws, Block) => (ws, Block)
  end.

Definition emit (w : write) : task unit := ([w], Val tt).
Definition return_ {A} : task A := ([], Return_).
Definition raise {A} (e : exn) : task A := ([], Exc e).
Definition block {A} : task A := ([], Block).

Definition lift {A} (r : res A) : task A :=
  match r with
  | Ret a => mret a
  | Raise e => raise e
  end.

(** [try: body  except C as e: handler e], where [catches] decides
    membership in the class [C]. *)
Definition try_except {A} (catches : exn -> bool) (body : task A)
    (handler : exn -> task A) : task A :=
  match body with
  | (ws, Exc e) =>
      if catches e then let '(ws', o) := handler e in ((ws ++ ws')%list, o) else body
  | _ => body
  end.

Definition is_Exception (e : exn) : bool :=
  match exn_cls e with
  | BaseOnly => false
  | _ => true
  end.

Definition is_TimeoutError (e : exn) : bool :=
  match exn_cls e with
  | TimeoutError => true
  | _ => false
  end.

(** [for x in xs: body x] *)
Fixpoint for_each {X} (xs : list X) (body : X -> task unit) : task unit :=
  match xs with
  | [] => mret tt
  | x :: xs' => body x ;; for_each xs' body
  end.

(** How a coroutine ends, seen from the scheduler. *)
Inductive completion := Finished | Propagated (e : exn) | NeverReturns.

Definition run_task (t : task unit) : list write * completion :=
  match t with
  | (ws, Val _) => (ws, Finished)
  | (ws, Return_) => (ws, Finished)
  | (ws, Exc e) => (ws, Propagated e)
  | (ws, Block) => (ws, NeverReturns)
  end.

(** ** Progress mapper

    The mapping lives in the loop body of [run_with_progress]. The function
    [progress_hook] of the video task is defined but never registered or
    called, so it takes no part in a run and is left out. *)

Section Progress.
Import PyStr.

(** [int(x)] on a float: truncation towards zero. *)
Definition int_of_float (x : Q) : Z :=
  if Qle_bool 0 x then Qfloor x else Qceiling x.

(** [min(45, 5 + int((downloaded / total) * 40))] *)
Definition fetch_percent (downloaded total : Z) : Z :=
  Z.min 45 (5 + int_of_float (inject_Z downloaded / inject_Z total * inject_Z 40)).

(** [min(90, 60 + int(elapsed / budget * 30))], with [budget] 30 for video
    and 20 for audio. *)
Definition transcode_percent (budget : Z) (elapsed : Q) : Z :=
  Z.min 90 (60 + int_of_float (elapsed / inject_Z budget * inject_Z 30)).

Definition unpack_error : exn :=
  {| exn_cls := ValueError; exn_str := "too many values to unpack (expected 2)" |}.

(** The body of the [try] that handles one line of the fetch tool's output:
    [Ret (Some percent)] when the two item assignments are reached,
    [Ret None] when a condition is false. *)
Definition progress_of_line (line : string) : res (option Z) :=
  let line_text := strip line in
  if startswith "download:" line_text then
    match split ":" line_text with
    | _ :: part1 :: _ =>
        if contains "/" part1 then
          match split "/" part1 with
          | [downloaded; total] =>
              if truthy (Some downloaded) && truthy (Some total) then
                t ← int_of_str total;
                if 0 <? t then
                  d ← int_of_str downloaded;
                  mret (Some (fetch_percent d t))
                else mret None
              else mret None
          | _ => Raise unpack_error
          end
        else mret None
    | _ => mret None
    end
  else mret None.

(** One iteration of the monitoring loop; [kind] is ["video"] or ["audio"]. *)
Definition process_line (kind line : string) : task unit :=
  try_except is_Exception
    (p ← lift (progress_of_line line);
     match p with
     | Some percent =>
         emit (SetProgress percent) ;;
         emit (SetMessage ("Downloading " ++ kind ++ "... " ++ str percent ++ "%"))
     | None => mret tt
     end)
    (fun _ => mret tt).

End Progress.

(** ** The external world of one job *)

(** The fetch tool: the lines it prints, then how the wait for it ends.
    Lines are taken after decoding; a line that fails to decode raises
    inside the [try] of the loop and is skipped like any other line without
    a progress signal. *)
Inductive fetch_behaviour :=
| FetchExits (lines : list string) (returncode : Z)
| FetchRaises (lines : list string) (e : exn)
| FetchBlocks (lines : list string).

(** The transcode tool: the elapsed time read at each turn of the polling
    loop, then how it ends. *)
Inductive transcode_behaviour :=
| TranscodeExits (elapsed : list Q) (returncode : Z) (stderr : string)
| TranscodeRaises (elapsed : list Q) (e : exn).

Record world := {
  fetch : fetch_behaviour;
  downloaded_files : list string;  (* list(DOWNLOAD_DIR.glob(f"{task_id}.*")) *)
  transcode : transcode_behaviour;
  unlink : option exn              (* downloaded_file.unlink(missing_ok=True) *)
}.

(** The arguments of the two background tasks. *)
Record job := {
  task_id : string;
  url : string;
  output_format : string;
  quality : string;
  trim_start : option string;
  trim_end : option string;
  selected_video_format : option string;
  selected_audio_format : option string
}.

(** ** Process runners *)

(** [run_with_progress]: the Windows branch (a thread reading lines) and the
    asyncio branch run the same loop body and neither sets a timeout. *)
Definition run_with_progress (kind : string) (f : fetch_behaviour) : task Z :=
  match f with
  | FetchExits lines returncode =>
      for_each lines (process_line kind) ;; mret returncode
  | FetchRaises lines e =>
      for_each lines (process_line kind) ;; raise e
  | FetchBlocks lines =>
      for_each lines (process_line kind) ;; block
  end.

Definition transcode_tick (kind : string) (budget : Z) (elapsed : Q) : task unit :=
  let p := transcode_percent budget elapsed in
  emit (SetProgress p) ;;
  emit (SetMessage ("Processing " ++ kind ++ "... " ++ PyStr.str p ++ "%")).

(** The polling loop around the transcode tool. *)
Definition run_ffmpeg_with_progress (kind : string) (budget : Z)
    (t : transcode_behaviour) : task (Z * string) :=
  match t with
  | TranscodeExits elapsed returncode stderr =>
      for_each elapsed (transcode_tick kind budget) ;; mret (returncode, stderr)
  | TranscodeRaises elapsed e =>
      for_each elapsed (transcode_tick kind budget) ;; raise e
  end.

(** ** Pipelines *)

Definition record3 (st : string) (p : Z) (msg : string) : status_record :=
  {| status := st; progress := p; message := msg;
     download_url := None; error := None |}.

Definition failed_record (msg err : string) : status_record :=
  {| status := "failed"; progress := 0; message := msg;
     download_url := None; error := Some err |}.

Definition completed_record (msg url_ : string) : status_record :=
  {| status := "completed"; progress := 100; message := msg;
     download_url := Some url_; error := None |}.

Definition lift_unlink (u : option exn) : task unit :=
  match u with
  | Some e => raise e
  | None => mret tt
  end.

(** [stderr if stderr else "Unknown error"] *)
Definition error_msg (stderr : string) : string :=
  if truthy (Some stderr) then stderr else "Unknown error".

Definition download_and_process_video (j : job) (w : world) : task unit :=
  try_except is_Exception
    (emit (Assign (record3 "downloading" 5 "Starting download...")) ;;
     format_selector ← lift (get_optimized_format_selector (quality j)
                               (selected_video_format j) (selected_audio_format j));
     emit (SetProgress 10) ;;
     emit (SetMessage "Downloading video...") ;;
     try_except is_TimeoutError
       (returncode ← run_with_progress "video" (fetch w);
        if negb (returncode =? 0) then
          emit (Assign (failed_record "Download failed"
                          "Process exited with non-zero code")) ;;
          return_
        else mret tt)
       (fun _ =>
          emit (Assign (failed_record "Download timeout" "Download took too long")) ;;
          return_) ;;
     match downloaded_files w with
     | [] =>
         emit (Assign (record3 "failed" 0 "Download failed - no file found")) ;;
         return_
     | downloaded_file :: _ =>
         emit (Assign (record3 "processing" 50 "Processing video...")) ;;
         let output_filename := task_id j ++ "." ++ output_format j in
         emit (SetProgress 60) ;;
         emit (SetMessage "Converting video format...") ;;
         '(returncode, stderr) ← run_ffmpeg_with_progress "video" 30 (transcode w);
         if negb (returncode =? 0) then
           emit (Assign (failed_record "Processing failed" (error_msg stderr))) ;;
           return_
         else
           lift_unlink (unlink w) ;;
           emit (Assign (completed_record "Ready for download"
                           ("/downloads/" ++ output_filename)))
     end)
    (fun e => emit (Assign (failed_record "Processing failed" (exn_str e)))).

(** [output_format in ["mp3", "m4a", "ogg", "wav"]] *)
Definition known_audio_format (f : string) : bool :=
  String.eqb f "mp3" || String.eqb f "m4a" || String.eqb f "ogg" || String.eqb f "wav".

Definition download_and_process_audio (j : job) (w : world) : task unit :=
  try_except is_Exception
    (emit (Assign (record3 "downloading" 5 "Starting audio download...")) ;;
     format_argument ← lift (audio_format_argument (selected_audio_format j));
     emit (SetProgress 10) ;;
     emit (SetMessage "Downloading audio...") ;;
     try_except is_TimeoutError
       (returncode ← run_with_progress "audio" (fetch w);
        if negb (returncode =? 0) then
          emit (Assign (failed_record "Audio download failed"
                          "Process exited with non-zero code")) ;;
          return_
        else mret tt)
       (fun _ =>
          emit (Assign (failed_record "Download timeout"
                          "Audio download took too long")) ;;
          return_) ;;
     match downloaded_files w with
     | [] =>
         emit (Assign (record3 "failed" 0 "Audio download failed - no file found")) ;;
         return_
     | downloaded_file :: _ =>
         emit (Assign (record3 "processing" 50 "Processing audio...")) ;;
         let output_filename :=
           if known_audio_format (output_format j)
           then task_id j ++ "." ++ output_format j
           else task_id j ++ ".mp3" in
         emit (SetProgress 60) ;;
         emit (SetMessage "Converting audio format...") ;;
         '(returncode, stderr) ← run_ffmpeg_with_progress "audio" 20 (transcode w);
         if negb (returncode =? 0) then
           emit (Assign (failed_record "Audio processing failed" (error_msg stderr))) ;;
           return_
         else
           lift_unlink (unlink w) ;;
           emit (Assign (completed_record "Audio ready for download"
                           ("/downloads/" ++ output_filename)))
     end)
    (fun e => emit (Assign (failed_record "Audio processing failed" (exn_str e)))).

(** The two kinds of job. *)
Inductive kind := Video | Audio.

Definition pipeline (k : kind) : job -> world -> task unit :=
  match k with
  | Video => download_and_process_video
  | Audio => download_and_process_audio
  end.

(** [process_video] and [process_audio]: the entry is seeded with a pending
    record, then the pipeline runs as a background task. [process_audio]
    replaces an unknown format by ["mp3"] before it starts the task. *)
Definition submit (k : kind) (j : job) : write * job :=
  match k with
  | Video => (Assign (record3 "pending" 0 "Task queued"), j)
  | Audio =>
      (Assign (record3 "pending" 0 "Audio task queued"),
       {| task_id := task_id j; url := url j;
          output_format :=
            if known_audio_format (output_format j) then output_format j else "mp3";
          quality := quality j; trim_start := trim_start j; trim_end := trim_end j;
          selected_video_format := selected_video_format j;
          selected_audio_format := selected_audio_format j |})
  end.

(** All writes of one job, from submission on, and how its task ends. *)
Definition job_run (k : kind) (j : job) (w : world) : list write * completion :=
  let '(seed, j') := submit k j in
  let '(ws, c) := run_task (pipeline k j' w) in
  (seed :: ws, c).

Definition job_trace (k : kind) (j : job) (w : world) : list write :=
  fst (job_run k j w).

(** The records a caller polling [task_id j] can observe during the job. *)
Definition job_records (k : kind) (j : job) (w : world)
    (active_tasks : gmap string status_record) : list status_record :=
  observed (task_id j) active_tasks (job_trace k j w).

(** The last record written for the job. *)
Definition final_record (k : kind) (j : job) (w : world)
    (active_tasks : gmap string status_record) : option status_record :=
  last (job_records k j w active_tasks).

(** ** Reading a selection expression

    A selection expression is a chain of alternatives separated by [/];
    an alternative carries filters in brackets, such as [[height<=720]]. *)

Fixpoint strip_prefix (p s : string) : option string :=
  match p, s with
  | EmptyString, _ => Some s
  | String a p', String b s' => if Ascii.eqb a b then strip_prefix p' s' else None
  | String _ _, EmptyString => None
  end.

(** The text that follows the first occurrence of [key] in [s]. *)
Fixpoint after (key s : string) : option string :=
  match strip_prefix key s with
  | Some r => Some r
  | None =>
      match s with
      | String _ r => after key r
      | EmptyString => None
      end
  end.

(** The text of [s] before the first [stop]. *)
Fixpoint until (stop : ascii) (s : string) : string :=
  match s with
  | EmptyString => EmptyString
  | String c r => if Ascii.eqb c stop then EmptyString else String c (until stop r)
  end.

(** The number in the first filter [[<cmp><number>]] of [alt], where [cmp]
    is a field with its comparison, such as ["height<="]. *)
Definition filter_bound (cmp alt : string) : option Z :=
  r ← after ("[" ++ cmp) alt; PyStr.int (until "]" r).

(** The height ceiling of each alternative of an expression. *)
Definition height_ceilings (expr : string) : list (option Z) :=
  map (filter_bound "height<=") (PyStr.split "/" expr).

(** ** Progress signals, as the fetch tool prints them

    The line [download:<downloaded_bytes>/<total_bytes>] asked for by the
    [--progress-template] argument; a counter the tool does not know is
    printed as [NA]. *)




(** ** Views of a trace *)

(** The word a pipeline puts in its messages, and its transcode budget. *)
Definition kind_name (k : kind) : string :=
  match k with
  | Video => "video"
  | Audio => "audio"
  end.

Definition budget (k : kind) : Z :=
  match k with
  | Video => 30
  | Audio => 20
  end.

Definition fetch_lines (f : fetch_behaviour) : list string :=
  match f with
  | FetchExits lines _ => lines
  | FetchRaises lines _ => lines
  | FetchBlocks lines => lines
  end.

Definition transcode_elapsed (t : transcode_behaviour) : list Q :=
  match t with
  | TranscodeExits elapsed _ _ => elapsed
  | TranscodeRaises elapsed _ => elapsed
  end.

(** The percentage a line leads to, if it leads to a write. *)
Definition line_percent (line : string) : option Z :=
  match progress_of_line line with
  | Ret (Some p) => Some p
  | _ => None
  end.


(** The writes one line of the fetch tool leads to. *)
Definition line_writes (name line : string) : list write :=
  match line_percent line with
  | Some p => [SetProgress p;
               SetMessage ("Downloading " ++ name ++ "... " ++ PyStr.str p ++ "%")]
  | None => []
  end.

Definition fetch_writes (name : string) (lines : list string) : list write :=
  flat_map (line_writes name) lines.

Definition tick_writes (name : string) (b : Z) (elapsed : Q) : list write :=
  let p := transcode_percent b elapsed in
  [SetProgress p; SetMessage ("Processing " ++ name ++ "... " ++ PyStr.str p ++ "%")].

Definition transcode_writes (name : string) (b : Z) (elapsed : list Q) : list write :=
  flat_map (tick_writes name b) elapsed.

Definition write_record (w : write) (r : status_record) : status_record :=
  match w with
  | Assign r' => r'
  | SetProgress n => set_progress n r
  | SetMessage s => set_message s r
  end.

(** The record of the job after each write, once its entry exists. *)
Fixpoint track (r : status_record) (ws : list write) : list status_record :=
  match ws with
  | [] => []
  | w :: ws' => write_record w r :: track (write_record w r) ws'
  end.

Definition is_Assign (w : write) : bool :=
  match w with
  | Assign _ => true
  | _ => false
  end.

(** A write that does not store a terminal record. *)
Definition nonterminal_write (w : write) : bool :=
  match w with
  | Assign r => negb (is_terminal r)
  | _ => true
  end.

(** The statuses of the whole-record assignments of a trace. *)
Definition assigned_statuses (ws : list write) : list string :=
  omap (fun w => match w with Assign r => Some (status r) | _ => None end) ws.

(** A trace made of whole-record assignments and of in-place updates, the
    latter always a progress assignment followed by a message assignment. *)
Inductive blocks : list write -> Prop :=
| blocks_nil : blocks []
| blocks_assign r ws : blocks ws -> blocks (Assign r :: ws)
| blocks_update n s ws : blocks ws -> blocks (SetProgress n :: SetMessage s :: ws).

(** The values of [progress] after each write, from the current value on. *)
Fixpoint progress_values (cur : Z) (ws : list write) : list Z :=
  match ws with
  | [] => []
  | Assign r :: ws' => progress r :: progress_values (progress r) ws'
  | SetProgress n :: ws' => n :: progress_values n ws'
  | SetMessage _ :: ws' => cur :: progress_values cur ws'
  end.

(** Each element followed by a copy of itself: the values of [progress]
    seen after a progress assignment and after the message assignment that
    follows it. *)
Definition twice (l : list Z) : list Z := flat_map (fun p => [p; p]) l.



(** ** The shape of a trace *)

(** The two shapes of a terminal record. *)
Definition failed_shape (r : status_record) : Prop :=
  status r = "failed" /\ progress r = 0 /\ download_url r = None.

Definition completed_shape (r : status_record) : Prop :=
  status r = "completed" /\ progress r = 100 /\
  is_Some (download_url r) /\ error r = None.

(** A record without [download_url] and without [error]. *)
Definition bare (r : status_record) : Prop :=
  download_url r = None /\ error r = None.

(** [download_url] is set in completed records and in no other, and [error]
    is set in failed records only. *)
Definition fields_ok (r : status_record) : bool :=
  Bool.eqb (bool_decide (is_Some (download_url r))) (String.eqb (status r) "completed")
  && (negb (bool_decide (is_Some (error r))) || String.eqb (status r) "failed").

Definition write_fields_ok (w : write) : bool :=
  match w with
  | Assign r => fields_ok r
  | _ => true
  end.

(** The ways a trace can end: nothing more is written, or one terminal
    record is assigned. *)
Definition failure_ending (ws : list write) : Prop :=
  ws = [] \/ exists r, ws = [Assign r] /\ failed_shape r.

Definition ending (ws : list write) : Prop :=
  ws = [] \/ exists r, ws = [Assign r] /\ (failed_shape r \/ completed_shape r).

(** The shape of the trace of a job: seed, fetch stage, then either an end
    by failure or the transcode stage and its end. *)
Definition trace_shape (k : kind) (w : world) (ws : list write) : Prop :=
  exists seed dl m rest,
    ws = Assign seed :: Assign dl :: SetProgress 10 :: SetMessage m
           :: (fetch_writes (kind_name k) (fetch_lines (fetch w)) ++ rest)%list /\
    (status seed = "pending" /\ progress seed = 0) /\
    (status dl = "downloading" /\ progress dl = 5) /\
    (bare seed /\ bare dl) /\
    (failure_ending rest \/
     exists pr m' rest2,
       rest = Assign pr :: SetProgress 60 :: SetMessage m'
                :: (transcode_writes (kind_name k) (budget k)
                      (transcode_elapsed (transcode w)) ++ rest2)%list /\
       (status pr = "processing" /\ progress pr = 50) /\
       bare pr /\
       ending rest2).

(** ** Predicates on characters *)

Fixpoint string_forall (P : ascii -> bool) (s : string) : bool :=
  match s with
  | EmptyString => true
  | String c r => P c && string_forall P r
  end.

Definition digit_char (c : ascii) : bool :=
  let n := N_of_ascii c in ((48 <=? n) && (n <=? 57))%N.

(** The characters [str] prints: digits and the minus sign. *)
Definition decimal_char (c : ascii) : bool :=
  let n := N_of_ascii c in
  ((48 <=? n) && (n <=? 57) || (n =? 45))%N.

(** The characters a literal accepted by [int] is made of. *)
Definition int_char (c : ascii) : bool :=
  PyStr.is_space c || digit_char c
  || Ascii.eqb c "-" || Ascii.eqb c "+" || Ascii.eqb c "_".


(** ** Sample jobs *)

Definition demo_job : job :=
  {| task_id := "job-1"; url := "https://example.org/watch";
     output_format := "mp4"; quality := "high";
     trim_start := None; trim_end := None;
     selected_video_format := None; selected_audio_format := None |}.

(** A fetch whose signals grow, then a transcode of two seconds. *)
Definition steady_world : world :=
  {| fetch := FetchExits ["download:50/100"; "download:100/100"] 0;
     downloaded_files := ["downloads/job-1.webm"];
     transcode := TranscodeExits [0 # 1; 1 # 1; 2 # 1]%Q 0 "";
     unlink := None |}.

(** A fetch that reports a second file from its start, then exits with an
    error. *)
Definition regressing_world : world :=
  {| fetch := FetchExits ["download:50/100"; "download:10/100"] 1;
     downloaded_files := [];
     transcode := TranscodeExits [] 0 "";
     unlink := None |}.

(** ** Further views of a run *)

(** The record left by a sequence of writes on a record. *)
Definition replay (r : status_record) (ws : list write) : status_record :=
  foldl (fun r w => write_record w r) r ws.

(** The extension of the file a job produces: the audio task falls back to
    [mp3] for a format it does not know. *)
Definition output_extension (k : kind) (j : job) : string :=
  match k with
  | Video => output_format j
  | Audio => if known_audio_format (output_format j) then output_format j else "mp3"
  end.

(** A run in which both tools exit with code 0, a downloaded file is found
    and its removal raises nothing. *)
Definition success_world (w : world) : bool :=
  match fetch w, downloaded_files w, transcode w, unlink w with
  | FetchExits _ rc, _ :: _, TranscodeExits _ rc2 _, None => (rc =? 0) && (rc2 =? 0)
  | _, _, _, _ => false
  end.

(** The exception the steps of a run meet first, if any: raised while the
    fetch tool is awaited, while the transcode tool is awaited, or by the
    removal of the downloaded file. *)
Definition first_raise (w : world) : option exn :=
  match fetch w with
  | FetchRaises _ e => Some e
  | FetchBlocks _ => None
  | FetchExits _ rc =>
      if rc =? 0 then
        match downloaded_files w with
        | [] => None
        | _ :: _ =>
            match transcode w with
            | TranscodeRaises _ e => Some e
            | TranscodeExits _ rc2 _ => if rc2 =? 0 then unlink w else None
            end
        end
      else None
  end.

(** ** Further sample runs *)

Definition world_with (f : fetch_behaviour) (t : transcode_behaviour)
    (u : option exn) : world :=
  {| fetch := f; downloaded_files := ["downloads/job-1.webm"];
     transcode := t; unlink := u |}.

(** The fetch tool cannot be started. *)
Definition missing_tool_world : world :=
  world_with (FetchRaises [] {| exn_cls := OtherException;
                                exn_str := "[Errno 2] No such file or directory" |})
             (TranscodeExits [] 0 "") None.

(** The wait for the fetch tool raises a [TimeoutError]. *)
Definition timeout_world : world :=
  world_with (FetchRaises ["download:10/100"]
                {| exn_cls := TimeoutError; exn_str := "" |})
             (TranscodeExits [] 0 "") None.

(** The task is cancelled during the fetch. *)
Definition cancelled_world : world :=
  world_with (FetchRaises ["download:10/100"]
                {| exn_cls := BaseOnly; exn_str := "" |})
             (TranscodeExits [] 0 "") None.

(** The transcode tool cannot be started. *)
Definition transcode_crash_world : world :=
  world_with (FetchExits ["download:100/100"] 0)
             (TranscodeRaises [] {| exn_cls := OtherException;
                                    exn_str := "[Errno 2] No such file or directory" |})
             None.

(** The transcode tool exits with an error and prints nothing. *)
Definition silent_failure_world : world :=
  world_with (FetchExits ["download:100/100"] 0)
             (TranscodeExits [0 # 1; 1 # 1]%Q 1 "") None.

(** The downloaded file cannot be removed. *)
Definition locked_file_world : world :=
  world_with (FetchExits ["download:100/100"] 0)
             (TranscodeExits [0 # 1]%Q 0 "")
             (Some {| exn_cls := OtherException; exn_str := "[WinError 32] file in use" |}).


(** ** Transcoding commands *)

Section Commands.

(** [str(PROCESSED_DIR / name)]: the text of a path depends on the platform
    and is left open. *)
Variable processed_path : string -> string.

(** [if trim_start and trim_end: ffmpeg_cmd.extend(["-ss", trim_start, "-to", trim_end])] *)
Definition trim_arguments (j : job) : list string :=
  match trim_start j, trim_end j with
  | Some s, Some e =>
      if truthy (Some s) && truthy (Some e) then ["-ss"; s; "-to"; e] else []
  | _, _ => []
  end.

(** The format branches of the video task: a format other than the three
    named ones adds nothing. *)
Definition video_codec_arguments (output_format : string) : list string :=
  if String.eqb output_format "mp4" then
    ["-c:v"; "libx264"; "-preset"; "fast"; "-c:a"; "aac"; "-movflags"; "+faststart"]
  else if String.eqb output_format "mp3" then
    ["-vn"; "-ar"; "44100"; "-ac"; "2"; "-b:a"; "192k"]
  else if String.eqb output_format "mkv" then ["-c"; "copy"]
  else [].

(** The format branches of the audio task, with the name of the output file:
    the last branch also renames the output. *)
Definition audio_codec_arguments (task_id output_format : string)
  : list string * string :=
  let output_filename := task_id ++ "." ++ output_format in
  if String.eqb output_format "mp3" then
    (["-vn"; "-ar"; "44100"; "-ac"; "2"; "-b:a"; "192k"], output_filename)
  else if String.eqb output_format "m4a" then
    (["-vn"; "-c:a"; "aac"; "-b:a"; "192k"], output_filename)
  else if String.eqb output_format "ogg" then
    (["-vn"; "-c:a"; "libvorbis"; "-q:a"; "4"], output_filename)
  else if String.eqb output_format "wav" then
    (["-vn"; "-ar"; "44100"; "-ac"; "2"], output_filename)
  else
    (["-vn"; "-ar"; "44100"; "-ac"; "2"; "-b:a"; "192k"], task_id ++ ".mp3").

(** [ffmpeg_cmd] as it stands when the tool is started. *)
Definition ffmpeg_cmd (k : kind) (j : job) (downloaded_file : string) : list string :=
  let start :=
    ["ffmpeg"; "-y"; "-hide_banner"; "-loglevel"; "error"; "-i"; downloaded_file]%list in
  match k with
  | Video =>
      (start ++ trim_arguments j ++ video_codec_arguments (output_format j)
         ++ [processed_path (task_id j ++ "." ++ output_format j)])%list
  | Audio =>
      let '(codec, output_filename) :=
        audio_codec_arguments (task_id j) (output_format j) in
      (start ++ trim_arguments j ++ codec ++ [processed_path output_filename])%list
  end.

End Commands.

(** A request with its trim bounds left out. *)
Definition without_trim (j : job) : job :=
  {| task_id := task_id j; url := url j; output_format := output_format j;
     quality := quality j; trim_start := None; trim_end := None;
     selected_video_format := selected_video_format j;
     selected_audio_format := selected_audio_format j |}.

(** ** Video information *)

(** A key of a JSON object as [dict.get] sees it: absent, [null], or a
    value. *)
Inductive field (A : Type) : Type :=
| Missing
| Null
| Value (a : A).
Arguments Missing {A}.
Arguments Null {A}.
Arguments Value {A} a.

(** [d.get(key)]: [None] stands for Python's [None]. *)
Definition get {A} (f : field A) : option A :=
  match f with
  | Value a => Some a
  | _ => None
  end.

(** [d.get(key, default)]: the default replaces an absent key only. *)
Definition get_or {A} (d : A) (f : field A) : option A :=
  match f with
  | Missing => Some d
  | Null => None
  | Value a => Some a
  end.

(** [sorted(xs, key=key, reverse=True)]: the keys are computed once, from
    left to right, and an exception of one of them ends the sort; the sort
    is stable, also when reversed, so elements of equal key keep their
    order. *)
Fixpoint insert_desc {A} (x : Z * A) (l : list (Z * A)) : list (Z * A) :=
  match l with
  | [] => [x]
  | y :: l' => if x.1 <? y.1 then y :: insert_desc x l' else x :: l
  end.

Definition sort_desc {A} (l : list (Z * A)) : list (Z * A) :=
  foldr insert_desc [] l.

Fixpoint with_keys {A} (key : A -> res Z) (xs : list A) : res (list (Z * A)) :=
  match xs with
  | [] => mret []
  | x :: xs' =>
      k ← key x;
      rest ← with_keys key xs';
      mret ((k, x) :: rest)
  end.

Definition sorted_reverse {A} (key : A -> res Z) (xs : list A) : res (list A) :=
  keyed ← with_keys key xs;
  mret (snd <$> sort_desc keyed).

Module Info.
Import PyStr.

(** One element of the [formats] list the tool prints, with the keys the
    function reads, typed as the tool documents them: [height] and
    [filesize] are integers, [abr] is a finite number, given by its exact
    value. *)
Record format_entry := {
  f_height : field Z;
  f_ext : field string;
  f_format_note : field string;
  f_filesize : field Z;
  f_acodec : field string;
  f_vcodec : field string;
  f_abr : field Q
}.

(** The object the tool prints, with the keys the function reads. *)
Record video_data := {
  d_title : field string;
  d_thumbnail : field string;
  d_duration : field Q;
  d_channel : field string;
  d_formats : field (list format_entry)
}.

(** What [json.loads(result.stdout)] finds. *)
Inductive json_value :=
| JsonInvalid
| JsonOther
| JsonObject (d : video_data).

(** What becomes of [subprocess.run(command, capture_output=True, text=True,
    timeout=30)]: it raises (the tool is missing, or runs for more than 30
    seconds), or the tool exits. *)
Inductive tool_run :=
| ToolFails (e : exn)
| ToolExits (returncode : Z) (stdout : json_value).

(** The dictionaries of [video_formats] and [audio_formats]; [None] in a
    field is Python's [None]. *)
Record video_format := {
  resolution : string;
  ext : option string;
  format_note : option string;
  file_size : string
}.

Record audio_format := {
  bitrate : string;
  audio_ext : option string;
  audio_file_size : string
}.

Record info := {
  title : option string;
  thumbnail : option string;
  duration : option Q;
  channel : option string;
  video_formats : list video_format;
  audio_formats : list audio_format;
  url : string
}.

(** What the endpoint returns: the information, or the shorter dictionary
    of its own handler. *)
Inductive response :=
| Full (i : info)
| Basic (url : string).

(** Both handlers of [get_video_info_async] return this dictionary. *)
Definition minimal_info (url : string) : info :=
  {| title := Some "Video"; thumbnail := None; duration := None;
     channel := Some "Unknown";
     video_formats :=
       [{| resolution := "best"; ext := Some "mp4"; format_note := Some "";
           file_size := "Unknown" |}];
     audio_formats :=
       [{| bitrate := "128kbps"; audio_ext := Some "m4a";
           audio_file_size := "Unknown" |}];
     url := url |}.

(** Both [except] clauses of [run_subprocess_sync] log and raise again. *)
Definition run_subprocess_sync (run : tool_run) : res (Z * json_value) :=
  match run with
  | ToolFails e => Raise e
  | ToolExits returncode stdout => Ret (returncode, stdout)
  end.

Section WithSize.

(** The text of [round(filesize / (1024 * 1024), 1)] depends on the printing
    of floats and is left open. *)
Variable size_mb : Z -> string.

Definition file_size_of (f : format_entry) : string :=
  match get (f_filesize f) with
  | Some n => if n =? 0 then "Unknown" else size_mb n ++ " MB"
  | None => "Unknown"
  end.

(** [f.get("height") and f.get("ext") in ["mp4", "webm"]] *)
Definition video_entry (f : format_entry) : option Z :=
  match get (f_height f), get (f_ext f) with
  | Some h, Some e =>
      if negb (h =? 0) && (String.eqb e "mp4" || String.eqb e "webm")
      then Some h else None
  | _, _ => None
  end.

(** The first loop over the formats. *)
Fixpoint video_loop (seen_resolutions : gset string) (fs : list format_entry)
  : list video_format :=
  match fs with
  | [] => []
  | f :: fs' =>
      match video_entry f with
      | Some h =>
          let resolution := str h ++ "p" in
          if decide (resolution ∈ seen_resolutions)
          then video_loop seen_resolutions fs'
          else {| resolution := resolution;
                  ext := get_or "mp4" (f_ext f);
                  format_note := get_or "" (f_format_note f);
                  file_size := file_size_of f |}
               :: video_loop ({[resolution]} ∪ seen_resolutions) fs'
      | None => video_loop seen_resolutions fs'
      end
  end.

(** [f.get("acodec") != "none" and f.get("vcodec") == "none"] *)
Definition audio_entry (f : format_entry) : bool :=
  match get (f_acodec f), get (f_vcodec f) with
  | Some a, Some v => negb (String.eqb a "none") && String.eqb v "none"
  | None, Some v => String.eqb v "none"
  | _, None => false
  end.

(** Equality of two values of [f.get("abr", 0)]. *)
Definition same_bitrate (a b : option Q) : bool :=
  match a, b with
  | Some x, Some y => Qeq_bool x y
  | None, None => true
  | _, _ => false
  end.

(** [f"{int(bitrate)}kbps" if bitrate else "Unknown"] *)
Definition bitrate_label (bitrate : option Q) : string :=
  match bitrate with
  | Some q => if Qeq_bool q 0 then "Unknown" else str (int_of_float q) ++ "kbps"
  | None => "Unknown"
  end.

(** The second loop over the formats. *)
Fixpoint audio_loop (seen_audio_bitrates : list (option Q)) (fs : list format_entry)
  : list audio_format :=
  match fs with
  | [] => []
  | f :: fs' =>
      if audio_entry f then
        let bitrate := get_or 0%Q (f_abr f) in
        if existsb (same_bitrate bitrate) seen_audio_bitrates
        then audio_loop seen_audio_bitrates fs'
        else {| bitrate := bitrate_label bitrate;
                audio_ext := get_or "m4a" (f_ext f);
                audio_file_size := file_size_of f |}
             :: audio_loop (bitrate :: seen_audio_bitrates) fs'
      else audio_loop seen_audio_bitrates fs'
  end.

(** [lambda x: int(x["resolution"].replace("p", ""))] *)
Definition video_key (x : video_format) : res Z :=
  int_of_str (replace "p" "" (resolution x)).

(** [lambda x: int(x["bitrate"].replace("kbps", "")) if x["bitrate"] != "Unknown" else 0] *)
Definition audio_key (x : audio_format) : res Z :=
  if negb (String.eqb (bitrate x) "Unknown")
  then int_of_str (replace "kbps" "" (bitrate x))
  else Ret 0.

(** [video_data.get("formats", [])], as the [for] loops take it: [null]
    cannot be iterated over. *)
Definition formats_of (d : video_data) : res (list format_entry) :=
  match d_formats d with
  | Missing => Ret []
  | Null => Raise {| exn_cls := OtherException;
                     exn_str := "'NoneType' object is not iterable" |}
  | Value fs => Ret fs
  end.

(** The body of the [try] of [get_video_info_async]. *)
Definition fetch_info (url : string) (run : tool_run) : res info :=
  '(returncode, stdout) ← run_subprocess_sync run;
  if negb (returncode =? 0) then
    Raise {| exn_cls := OtherException;
             exn_str := "Command returned non-zero exit status" |}
  else
    match stdout with
    | JsonInvalid =>
        Raise {| exn_cls := ValueError; exn_str := "Expecting value" |}
    | JsonOther =>
        Raise {| exn_cls := OtherException;
                 exn_str := "object has no attribute 'get'" |}
    | JsonObject video_data =>
        fs ← formats_of video_data;
        formats ← sorted_reverse video_key (video_loop ∅ fs);
        audio_formats ← sorted_reverse audio_key (audio_loop [] fs);
        mret {| title := get_or "Unknown" (d_title video_data);
                thumbnail := get (d_thumbnail video_data);
                duration := get (d_duration video_data);
                channel := get_or "Unknown" (d_channel video_data);
                video_formats := take 8 formats;
                audio_formats := take 3 audio_formats;
                url := url |}
    end.

(** [get_video_info_async]: [except json.JSONDecodeError] and
    [except Exception] return the same dictionary. *)
Definition get_video_info_async (url : string) (run : tool_run) : res info :=
  match fetch_info url run with
  | Raise e => if is_Exception e then Ret (minimal_info url) else Raise e
  | r => r
  end.

(** The endpoint [get_video_info], with its own [except Exception]. *)
Definition get_video_info (url : string) (run : tool_run) : res response :=
  match get_video_info_async url run with
  | Ret i => Ret (Full i)
  | Raise e => if is_Exception e then Ret (Basic url) else Raise e
  end.

End WithSize.

End Info.

(** The value of a sort key that raises nothing. *)
Definition key_value (k : res Z) : Z :=
  match k with
  | Ret n => n
  | Raise _ => 0
  end.

(** The list [sorted_reverse] hands to the sort when no key raises. *)
Definition keyed {A} (key : A -> res Z) (xs : list A) : list (Z * A) :=
  (fun x => (key_value (key x), x)) <$> xs.

(** A sample of what the tool prints: two formats of height 720, one of
    height 1080, one with an extension the function skips, and two
    audio-only formats, one without a bitrate. *)
Definition sample_entry (height : field Z) (ext : string) (filesize : field Z)
    (acodec vcodec : string) (abr : field Q) : Info.format_entry :=
  {| Info.f_height := height; Info.f_ext := Value ext;
     Info.f_format_note := Missing; Info.f_filesize := filesize;
     Info.f_acodec := Value acodec; Info.f_vcodec := Value vcodec;
     Info.f_abr := abr |}.

Definition sample_formats : list Info.format_entry :=
  [ sample_entry (Value 720) "mp4" (Value 10485760) "none" "avc1" Missing;
    sample_entry (Value 1080) "webm" Missing "none" "vp9" Missing;
    sample_entry (Value 720) "webm" Missing "none" "vp9" Missing;
    sample_entry Null "m4a" Missing "mp4a" "none" (Value (257 # 2)%Q);
    sample_entry (Value 360) "3gp" Missing "none" "h263" Missing;
    sample_entry Null "webm" Missing "opus" "none" Missing ].

Definition sample_data : Info.video_data :=
  {| Info.d_title := Value "Sample"; Info.d_thumbnail := Null;
     Info.d_duration := Value (93 # 1)%Q; Info.d_channel := Missing;
     Info.d_formats := Value sample_formats |}.

(** A printing of sizes for the sample: whole megabytes. *)
Definition sample_size_mb (n : Z) : string :=
  PyStr.str (n / 1048576) ++ ".0".

Definition sample_info : Info.info :=
  Eval vm_compute in
    match Info.get_video_info_async sample_size_mb "https://example.org/watch"
            (Info.ToolExits 0 (Info.JsonObject sample_data)) with
    | Ret i => i
    | Raise _ => Info.minimal_info ""
    end.
(** * Facts about the string primitives *)

Section StringFacts.
Import PyStr.

Lemma string_forall_app P s t :
  string_forall P (s ++ t) = string_forall P s && string_forall P t.
Proof.
  induction s as [|c s IH]; simpl; [done|].
  by rewrite IH, andb_assoc.
Qed.

Lemma string_forall_impl (P Q : ascii -> bool) s :
  (forall c, P c = true -> Q c = true) ->
  string_forall P s = true -> string_forall Q s = true.
Proof.
  intros HPQ. induction s as [|c s IH]; simpl; [done|].
  intros [Hc Hs]%andb_prop. rewrite (HPQ _ Hc). simpl. auto.
Qed.

Ltac by_cases_on_char c :=
  destruct c as [[|] [|] [|] [|] [|] [|] [|] [|]]; vm_compute; try done.

Lemma digit_is_decimal c : digit_char c = true -> decimal_char c = true.
Proof. by_cases_on_char c. Qed.

Lemma decimal_not_space c : decimal_char c = true -> negb (is_space c) = true.
Proof. by_cases_on_char c. Qed.

Lemma decimal_not_char (x : ascii) c :
  decimal_char x = false -> decimal_char c = true -> negb (Ascii.eqb c x) = true.
Proof.
  intros Hx Hc. destruct (Ascii.eqb_spec c x) as [->|]; [congruence|done].
Qed.

Lemma digit_not_char (x : ascii) c :
  digit_char x = false -> digit_char c = true -> negb (Ascii.eqb c x) = true.
Proof.
  intros Hx Hc. destruct (Ascii.eqb_spec c x) as [->|]; [congruence|done].
Qed.

Lemma uint_digits d : string_forall digit_char (NilEmpty.string_of_uint d) = true.
Proof. induction d; simpl; auto. Qed.

Lemma str_decimal n : string_forall decimal_char (str n) = true.
Proof.
  assert (forall d, string_forall decimal_char (NilEmpty.string_of_uint d) = true)
    as Hd by (intros d; eapply string_forall_impl;
              [apply digit_is_decimal|apply uint_digits]).
  unfold str. destruct (Z.to_int n) as [d|d]; simpl; [apply Hd|].
  change (decimal_char "-") with true. apply Hd.
Qed.

Lemma str_without (x : ascii) n :
  decimal_char x = false ->
  string_forall (fun c => negb (Ascii.eqb c x)) (str n) = true.
Proof.
  intros Hx. eapply string_forall_impl; [|apply str_decimal].
  intros c. by apply decimal_not_char.
Qed.

Lemma uint_nonempty d : d <> Decimal.Nil -> NilEmpty.string_of_uint d <> "".
Proof. destruct d; simpl; congruence. Qed.

Lemma str_nonempty n : str n <> "".
Proof.
  unfold str. destruct n as [|p|p]; simpl; [done| |done].
  apply uint_nonempty, DecimalPos.Unsigned.to_uint_nonnil.
Qed.


(** *** [strip] *)

Lemma rstrip_id s :
  string_forall (fun c => negb (is_space c)) s = true -> rstrip s = s.
Proof.
  induction s as [|c s IH]; simpl; [done|].
  intros [Hc Hs]%andb_prop. rewrite (IH Hs).
  apply negb_true_iff in Hc. by rewrite Hc.
Qed.

Lemma lstrip_id s :
  string_forall (fun c => negb (is_space c)) s = true -> lstrip s = s.
Proof.
  destruct s as [|c s]; simpl; [done|].
  intros [Hc Hs]%andb_prop. apply negb_true_iff in Hc. by rewrite Hc.
Qed.

Lemma strip_id s :
  string_forall (fun c => negb (is_space c)) s = true -> strip s = s.
Proof. intros H. unfold strip. by rewrite lstrip_id, rstrip_id. Qed.

(** *** [int] after [str] *)

Lemma drop_underscores_id s :
  string_forall (fun c => negb (Ascii.eqb c "_")) s = true ->
  drop_underscores true s = Some s.
Proof.
  induction s as [|c s IH]; simpl; [done|].
  intros [Hc Hs]%andb_prop. apply negb_true_iff in Hc.
  by rewrite Hc, (IH Hs).
Qed.

Lemma parse_digits_uint d :
  d <> Decimal.Nil ->
  parse_digits (NilEmpty.string_of_uint d) = Some (Z.of_uint d).
Proof.
  intros Hd. unfold parse_digits.
  assert (drop_underscores false (NilEmpty.string_of_uint d)
          = Some (NilEmpty.string_of_uint d)) as ->.
  { pose proof (uint_digits d) as Hall.
    pose proof (uint_nonempty d Hd) as Hne.
    destruct (NilEmpty.string_of_uint d) as [|c s]; [done|].
    simpl in *. apply andb_prop in Hall as [Hc Hs].
    pose proof (digit_not_char "_" c eq_refl Hc) as Hc'.
    apply negb_true_iff in Hc'. rewrite Hc'.
    rewrite drop_underscores_id; [done|].
    eapply string_forall_impl; [|exact Hs].
    intros c0. by apply digit_not_char. }
  simpl. by rewrite NilEmpty.usu.
Qed.

Lemma int_str n : PyStr.int (str n) = Some n.
Proof.
  unfold PyStr.int.
  rewrite strip_id by
    (eapply string_forall_impl; [apply decimal_not_space|apply str_decimal]).
  pose proof (DecimalZ.of_to n) as Hn. unfold str.
  destruct n as [|p|p]; [done| |]; simpl in *;
    pose proof (DecimalPos.Unsigned.to_uint_nonnil p) as Hnil;
    pose proof (parse_digits_uint _ Hnil) as Hp.
  - rewrite Hn in Hp.
    pose proof (uint_digits (Pos.to_uint p)) as Hall.
    destruct (NilEmpty.string_of_uint (Pos.to_uint p)) as [|c s] eqn:E; [done|].
    simpl in Hall. apply andb_prop in Hall as [Hc _].
    pose proof (digit_not_char "-" c eq_refl Hc) as H1.
    pose proof (digit_not_char "+" c eq_refl Hc) as H2.
    apply negb_true_iff in H1, H2. by rewrite H1, H2.
  - rewrite Hp. simpl. f_equal. lia.
Qed.

Lemma int_of_str_str n : int_of_str (str n) = Ret n.
Proof. unfold int_of_str. by rewrite int_str. Qed.

End StringFacts.

Section SplitFacts.
Import PyStr.


Lemma split_app_sep sep s t :
  string_forall (fun c => negb (Ascii.eqb c sep)) s = true ->
  split sep (s ++ String sep t) = s :: split sep t.
Proof.
  induction s as [|c s IH]; simpl.
  - intros _. by rewrite Ascii.eqb_refl.
  - intros [Hc Hs]%andb_prop. apply negb_true_iff in Hc.
    by rewrite Hc, (IH Hs).
Qed.

Lemma contains_app_r sub s t : contains sub t = true -> contains sub (s ++ t) = true.
Proof.
  intros Ht. induction s as [|c s IH]; simpl; [done|].
  rewrite IH. apply orb_true_r.
Qed.



Lemma until_app stop s t :
  string_forall (fun c => negb (Ascii.eqb c stop)) s = true ->
  until stop (s ++ String stop t) = s.
Proof.
  induction s as [|c s IH]; simpl.
  - intros _. by rewrite Ascii.eqb_refl.
  - intros [Hc Hs]%andb_prop. apply negb_true_iff in Hc.
    by rewrite Hc, (IH Hs).
Qed.

Lemma after_skip k key s t :
  string_forall (fun c => negb (Ascii.eqb c k)) s = true ->
  after (String k key) (s ++ t) = after (String k key) t.
Proof.
  induction s as [|c s IH]; simpl; [done|].
  intros [Hc Hs]%andb_prop. apply negb_true_iff in Hc.
  rewrite Ascii.eqb_sym, Hc. by apply IH.
Qed.

(** Removing the unit: the text before a final ["kbps"] is kept when it
    holds no [k]. *)
Lemma replace_kbps_suffix s :
  string_forall (fun c => negb (Ascii.eqb c "k")) s = true ->
  replace "kbps" "" (s ++ "kbps") = s.
Proof.
  unfold replace. induction s as [|c s IH]; [done|].
  simpl string_forall. intros [Hc Hs]%andb_prop. apply negb_true_iff in Hc.
  change ((String c s) ++ "kbps") with (String c (s ++ "kbps")).
  cbn [replace_from]. cbn [String.prefix].
  destruct (ascii_dec "k" c) as [<-|_]; [done|].
  by rewrite (IH Hs).
Qed.

(** *** The characters of a literal [int] accepts *)

Lemma lstrip_forall P s :
  (forall c, is_space c = true -> P c = true) ->
  string_forall P (lstrip s) = true -> string_forall P s = true.
Proof.
  intros HP. induction s as [|c s IH]; simpl; [done|].
  destruct (is_space c) eqn:E; [|done].
  intros H. by rewrite (HP _ E), (IH H).
Qed.

Lemma rstrip_forall P s :
  (forall c, is_space c = true -> P c = true) ->
  string_forall P (rstrip s) = true -> string_forall P s = true.
Proof.
  intros HP. induction s as [|c s IH]; simpl; [done|].
  destruct (is_space c) eqn:E; simpl.
  - destruct (String.eqb_spec (rstrip s) "") as [E0|_]; simpl.
    + intros _. rewrite (HP _ E). rewrite E0 in IH. by rewrite IH.
    + intros [Hc Hs]%andb_prop. by rewrite Hc, (IH Hs).
  - intros [Hc Hs]%andb_prop. by rewrite Hc, (IH Hs).
Qed.

Lemma drop_underscores_forall P b s ds :
  P "_"%char = true ->
  drop_underscores b s = Some ds ->
  string_forall P ds = true -> string_forall P s = true.
Proof.
  intros HP. revert b ds. induction s as [|c s IH]; intros b ds; simpl; [done|].
  destruct (Ascii.eqb_spec c "_") as [->|_].
  - destruct b; [|done]. intros H1 H2. rewrite HP. simpl. eauto.
  - destruct (drop_underscores true s) as [ds'|] eqn:E; simpl; [|done].
    intros [= <-]. simpl. intros [Hc Hs]%andb_prop. rewrite Hc. simpl. eauto.
Qed.

Lemma parse_digits_forall s n :
  parse_digits s = Some n -> string_forall int_char s = true.
Proof.
  unfold parse_digits. destruct (drop_underscores false s) as [ds|] eqn:E; simpl; [|done].
  destruct (NilEmpty.uint_of_string ds) as [d|] eqn:Ed; simpl; [|done].
  intros _. eapply drop_underscores_forall; [done|exact E|].
  apply NilEmpty.sus in Ed. subst ds.
  eapply string_forall_impl; [|apply uint_digits].
  intros c Hc. unfold int_char. rewrite Hc. by rewrite orb_true_r.
Qed.

Lemma int_forall s n : PyStr.int s = Some n -> string_forall int_char s = true.
Proof.
  unfold PyStr.int, strip. intros H.
  assert (forall c, is_space c = true -> int_char c = true) as Hsp
    by (intros c Hc; unfold int_char; by rewrite Hc).
  apply lstrip_forall, rstrip_forall; try done.
  destruct (rstrip (lstrip s)) as [|c r]; [done|].
  destruct (Ascii.eqb_spec c "-") as [->|_].
  { destruct (parse_digits r) eqn:E; [|done]. simpl.
    by apply parse_digits_forall in E. }
  destruct (Ascii.eqb_spec c "+") as [->|_].
  { simpl. by apply parse_digits_forall in H. }
  by apply parse_digits_forall in H.
Qed.

Lemma int_char_not_k c : int_char c = true -> negb (Ascii.eqb c "k") = true.
Proof.
  destruct c as [[|] [|] [|] [|] [|] [|] [|] [|]]; vm_compute; done.
Qed.

Lemma int_without_k s n :
  PyStr.int s = Some n -> string_forall (fun c => negb (Ascii.eqb c "k")) s = true.
Proof.
  intros H. eapply string_forall_impl; [apply int_char_not_k|].
  by eapply int_forall.
Qed.

End SplitFacts.

(** * The format selector *)

Section SelectorFacts.
Import PyStr.

Lemma quality_selector_cases q :
  q = "best" /\ quality_selector q = "best[ext=mp4]/best" \/
  q = "high" /\ quality_selector q = "best[height<=1080][ext=mp4]/best[height<=1080]" \/
  q = "medium" /\ quality_selector q = "best[height<=720][ext=mp4]/best[height<=720]" \/
  q = "low" /\ quality_selector q = "best[height<=480][ext=mp4]/best[height<=480]" \/
  (q <> "high" /\ q <> "medium" /\ q <> "low") /\
    quality_selector q = "best[ext=mp4]/best".
Proof.
  unfold quality_selector, format_selectors.
  destruct (decide (q = "best")) as [->|Hb]; [by left|].
  destruct (decide (q = "high")) as [->|Hh]; [by right; left|].
  destruct (decide (q = "medium")) as [->|Hm]; [by right; right; left|].
  destruct (decide (q = "low")) as [->|Hl]; [by right; right; right; left|].
  do 4 right. split; [done|].
  by rewrite !lookup_insert_ne, lookup_empty by done.
Qed.

Lemma selector_without_video_pick q sv sa :
  truthy sv = false ->
  get_optimized_format_selector q sv sa = Ret (quality_selector q).
Proof.
  unfold get_optimized_format_selector. intros H.
  destruct sv as [sv|]; [|done]. by rewrite H.
Qed.

Lemma audio_selector_parsed ns n :
  PyStr.int ns = Some n ->
  audio_selector (Some (ns ++ "kbps"))
  = Ret ("bestaudio[abr<=" ++ str (n + 10) ++ "][abr>=" ++ str (n - 10) ++ "]").
Proof.
  intros Hn. unfold audio_selector.
  assert (truthy (Some (ns ++ "kbps")) = true) as -> by (by destruct ns).
  rewrite contains_app_r by done. cbn [andb].
  rewrite replace_kbps_suffix by (by eapply int_without_k).
  unfold int_of_str. by rewrite Hn.
Qed.

Lemma audio_selector_unparsed sa :
  contains "kbps" sa = false \/ PyStr.int (replace "kbps" "" sa) = None ->
  audio_selector (Some sa) = Ret "bestaudio".
Proof.
  unfold audio_selector. intros [H|H].
  - rewrite H. by rewrite andb_false_r.
  - destruct (truthy (Some sa) && contains "kbps" sa); [|done].
    unfold int_of_str. by rewrite H.
Qed.

Lemma audio_selector_total sa : exists expr, audio_selector sa = Ret expr.
Proof.
  unfold audio_selector. destruct sa as [sa|]; [|by eexists].
  destruct (truthy (Some sa) && contains "kbps" sa); [|by eexists].
  unfold int_of_str. destruct (PyStr.int _); by eexists.
Qed.

Lemma selector_returns q sv sa :
  exists expr, get_optimized_format_selector q sv sa = Ret expr.
Proof.
  unfold get_optimized_format_selector. destruct sv as [vs|]; [|by eexists].
  destruct (truthy (Some vs)); [|by eexists].
  unfold explicit_selector, int_of_str.
  destruct (PyStr.int (PyStr.replace "p" "" vs)); [|by eexists].
  destruct (audio_selector_total sa) as [a ->]. by eexists.
Qed.

Lemma filter_bound_upper (cmp0 : ascii) cmp pre n rest :
  string_forall (fun c => negb (Ascii.eqb c "[")) pre = true ->
  filter_bound (String cmp0 cmp)
    (pre ++ "[" ++ String cmp0 cmp ++ str n ++ "]" ++ rest) = Some n.
Proof.
  intros Hpre. unfold filter_bound.
  change ("[" ++ String cmp0 cmp) with (String "[" (String cmp0 cmp)).
  rewrite after_skip by done.
  assert (forall key r, strip_prefix key (key ++ r) = Some r) as Hsp.
  { clear. induction key as [|a key IH]; intros r; simpl; [done|].
    by rewrite Ascii.eqb_refl. }
  assert (after (String "[" (String cmp0 cmp))
            ("[" ++ String cmp0 cmp ++ str n ++ "]" ++ rest)
          = Some (str n ++ "]" ++ rest)) as ->.
  { change ("[" ++ String cmp0 cmp ++ str n ++ "]" ++ rest)
      with (String "[" (String cmp0 cmp) ++ (str n ++ "]" ++ rest)).
    generalize (String "[" (String cmp0 cmp)) (str n ++ "]" ++ rest).
    intros key r. destruct (key ++ r) eqn:E; simpl; rewrite <- E, Hsp; done. }
  simpl. change ("]" ++ rest) with (String "]" rest).
  rewrite until_app by (by apply str_without). apply int_str.
Qed.

End SelectorFacts.

Section SelectorClaims.
Import PyStr.



(** C7. Called without an explicit video pick, the format selector returns a
    non-empty selection expression; every alternative of it carries the
    height ceiling 1080 for ["high"], 720 for ["medium"], 480 for ["low"],
    and no height ceiling for ["best"] and for any other quality value. *)
Theorem selector_quality_mapping q sv sa :
  truthy sv = false ->
  exists expr,
    get_optimized_format_selector q sv sa = Ret expr /\ expr <> "" /\
    height_ceilings expr =
      (if decide (q = "high") then [Some 1080; Some 1080]
       else if decide (q = "medium") then [Some 720; Some 720]
       else if decide (q = "low") then [Some 480; Some 480]
       else [None; None]).
Proof.
  intros Hsv. exists (quality_selector q).
  split; [by apply selector_without_video_pick|].
  destruct (quality_selector_cases q)
    as [[-> ->]|[[-> ->]|[[-> ->]|[[-> ->]|[(Hh & Hm & Hl) ->]]]]];
    try (split; [done|]; vm_compute; done).
  split; [done|]. by rewrite !decide_False by done.
Qed.

Lemma selector_quality_mapping_witness :
  truthy None = false /\
  exists expr,
    get_optimized_format_selector "medium" None (Some "128kbps") = Ret expr /\
    expr <> "" /\ height_ceilings expr = [Some 720; Some 720].
Proof.
  split; [reflexivity|].
  apply (selector_quality_mapping "medium" None (Some "128kbps")). reflexivity.
Defined.






(** C10. Without an explicit video pick ([None] or the empty string) the
    audio pick plays no part: the selector returned is the quality-based one,
    a function of the quality alone, and it holds no bitrate constraint. *)
Theorem selector_ignores_audio_pick_without_video_pick q sv sa :
  truthy sv = false ->
  get_optimized_format_selector q sv sa = Ret (quality_selector q) /\
  contains "abr" (quality_selector q) = false /\
  filter_bound "abr<=" (quality_selector q) = None /\
  filter_bound "abr>=" (quality_selector q) = None.
Proof.
  intros Hsv. split; [by apply selector_without_video_pick|].
  destruct (quality_selector_cases q)
    as [[_ ->]|[[_ ->]|[[_ ->]|[[_ ->]|[_ ->]]]]]; by vm_compute.
Qed.

Lemma selector_ignores_audio_pick_without_video_pick_witness :
  truthy (Some "") = false /\
  get_optimized_format_selector "high" (Some "") (Some "128kbps")
  = Ret (quality_selector "high") /\
  contains "abr" (quality_selector "high") = false.
Proof.
  split; [reflexivity|].
  destruct (selector_ignores_audio_pick_without_video_pick
              "high" (Some "") (Some "128kbps") eq_refl) as (H1 & H2 & _).
  split; assumption.
Defined.

End SelectorClaims.

(** * The monitoring loops *)

Section LoopFacts.

Lemma int_of_str_raises s e : int_of_str s = Raise e -> exn_cls e = ValueError.
Proof. unfold int_of_str. destruct (PyStr.int s); [done|]. by intros [= <-]. Qed.

Lemma progress_of_line_raises line e :
  progress_of_line line = Raise e -> is_Exception e = true.
Proof.
  unfold progress_of_line, is_Exception. intros H.
  assert (exn_cls e = ValueError) as ->; [|done].
  repeat (case_match; try done); simplify_eq; try done.
  all: revert H; unfold mbind, res_bind.
  all: repeat (case_match; try done); intros; simplify_eq;
    eauto using int_of_str_raises.
Qed.

Lemma process_line_eq name line :
  process_line name line = (line_writes name line, Val tt).
Proof.
  unfold process_line, line_writes, line_percent.
  destruct (progress_of_line line) as [[p|]|e] eqn:E; try done.
  simpl. by rewrite (progress_of_line_raises _ _ E).
Qed.

Lemma for_each_writes {X} (xs : list X) (body : X -> task unit) (f : X -> list write) :
  (forall x, body x = (f x, Val tt)) ->
  for_each xs body = (flat_map f xs, Val tt).
Proof.
  intros Hbody. induction xs as [|x xs IH]; [done|].
  simpl. by rewrite Hbody, IH.
Qed.

Lemma fetch_loop name lines :
  for_each lines (process_line name) = (fetch_writes name lines, Val tt).
Proof. apply for_each_writes, process_line_eq. Qed.

Lemma transcode_loop name b elapsed :
  for_each elapsed (transcode_tick name b) = (transcode_writes name b elapsed, Val tt).
Proof. by apply for_each_writes. Qed.

Lemma run_with_progress_eq name f :
  run_with_progress name f =
  (fetch_writes name (fetch_lines f),
   match f with
   | FetchExits _ returncode => Val returncode
   | FetchRaises _ e => Exc e
   | FetchBlocks _ => Block
   end).
Proof.
  destruct f; simpl; rewrite fetch_loop; simpl; by rewrite app_nil_r.
Qed.

Lemma run_ffmpeg_with_progress_eq name b t :
  run_ffmpeg_with_progress name b t =
  (transcode_writes name b (transcode_elapsed t),
   match t with
   | TranscodeExits _ returncode stderr => Val (returncode, stderr)
   | TranscodeRaises _ e => Exc e
   end).
Proof.
  destruct t; simpl; rewrite transcode_loop; simpl; by rewrite app_nil_r.
Qed.

End LoopFacts.

(** * The shape of a job's trace *)

Ltac reduce_task :=
  cbn -[get_optimized_format_selector audio_format_argument trace_shape
        run_with_progress run_ffmpeg_with_progress fetch_writes transcode_writes
        observed last].

Ltac split_exn e :=
  let c := fresh "c" in let s := fresh "s" in
  destruct e as [c s]; destruct c.

Section TraceShape.

Lemma audio_format_argument_returns sa :
  exists expr, audio_format_argument sa = Ret expr.
Proof.
  unfold audio_format_argument.
  destruct (audio_selector_total sa) as [a ->]. by eexists.
Qed.

Lemma failed_record_shape msg err : failed_shape (failed_record msg err).
Proof. done. Qed.

Lemma completed_record_shape msg u : completed_shape (completed_record msg u).
Proof. repeat split; eauto. Qed.

Lemma record3_failed_shape msg : failed_shape (record3 "failed" 0 msg).
Proof. done. Qed.

Lemma record3_bare st p msg : bare (record3 st p msg).
Proof. done. Qed.

Lemma shape_fetch_only k w seed dl m :
  status seed = "pending" -> progress seed = 0 ->
  status dl = "downloading" -> progress dl = 5 ->
  bare seed -> bare dl ->
  trace_shape k w
    (Assign seed :: Assign dl :: SetProgress 10 :: SetMessage m
       :: fetch_writes (kind_name k) (fetch_lines (fetch w))).
Proof.
  intros. exists seed, dl, m, []. rewrite app_nil_r.
  do 4 (split; [done|]). left. by left.
Qed.

Lemma shape_fetch_failed k w seed dl m r :
  status seed = "pending" -> progress seed = 0 ->
  status dl = "downloading" -> progress dl = 5 ->
  bare seed -> bare dl ->
  failed_shape r ->
  trace_shape k w
    (Assign seed :: Assign dl :: SetProgress 10 :: SetMessage m
       :: (fetch_writes (kind_name k) (fetch_lines (fetch w)) ++ [Assign r])%list).
Proof.
  intros. exists seed, dl, m, [Assign r].
  do 4 (split; [done|]). left. right. by exists r.
Qed.

Lemma shape_transcode k w seed dl m pr m' rest2 :
  status seed = "pending" -> progress seed = 0 ->
  status dl = "downloading" -> progress dl = 5 ->
  bare seed -> bare dl ->
  status pr = "processing" -> progress pr = 50 -> bare pr ->
  ending rest2 ->
  trace_shape k w
    (Assign seed :: Assign dl :: SetProgress 10 :: SetMessage m
       :: (fetch_writes (kind_name k) (fetch_lines (fetch w))
           ++ Assign pr :: SetProgress 60 :: SetMessage m'
           :: (transcode_writes (kind_name k) (budget k)
                 (transcode_elapsed (transcode w)) ++ rest2))%list).
Proof.
  intros. eexists seed, dl, m, _.
  split; [reflexivity|]. do 3 (split; [done|]).
  right. by eexists pr, m', rest2.
Qed.

Lemma shape_transcode_only k w seed dl m pr m' :
  status seed = "pending" -> progress seed = 0 ->
  status dl = "downloading" -> progress dl = 5 ->
  bare seed -> bare dl ->
  status pr = "processing" -> progress pr = 50 -> bare pr ->
  trace_shape k w
    (Assign seed :: Assign dl :: SetProgress 10 :: SetMessage m
       :: (fetch_writes (kind_name k) (fetch_lines (fetch w))
           ++ Assign pr :: SetProgress 60 :: SetMessage m'
           :: transcode_writes (kind_name k) (budget k)
                (transcode_elapsed (transcode w)))%list).
Proof.
  intros.
  rewrite <- (app_nil_r (transcode_writes _ _ _)).
  apply shape_transcode; try done. by left.
Qed.

Lemma ending_failed r : failed_shape r -> ending [Assign r].
Proof. intros. right. exists r. auto. Qed.

Lemma ending_completed r : completed_shape r -> ending [Assign r].
Proof. intros. right. exists r. auto. Qed.

Ltac close_shape k w :=
  rewrite <- ?app_assoc; cbn [app fst snd]; rewrite ?app_nil_r;
  first
    [ apply (shape_fetch_only k w)
    | apply (shape_fetch_failed k w)
    | apply (shape_transcode_only k w)
    | apply (shape_transcode k w) ];
  solve [ eauto using failed_record_shape, completed_record_shape,
            record3_failed_shape, record3_bare, ending_failed, ending_completed ].

Ltac after_fetch k w files t u :=
  destruct files as [|file files]; reduce_task; [close_shape k w|];
  rewrite run_ffmpeg_with_progress_eq;
  destruct t as [elapsed rc2 stderr|elapsed e2]; reduce_task;
  [ destruct (rc2 =? 0); reduce_task; [|close_shape k w];
    destruct u as [e3|]; reduce_task; [split_exn e3; reduce_task|]; close_shape k w
  | split_exn e2; reduce_task; close_shape k w ].

Lemma job_trace_shape k j w : trace_shape k w (job_trace k j w).
Proof.
  unfold job_trace, job_run.
  destruct k; cbn [submit pipeline].
  - unfold download_and_process_video. reduce_task.
    destruct (selector_returns (quality j) (selected_video_format j)
                (selected_audio_format j)) as [expr ->].
    reduce_task. rewrite run_with_progress_eq.
    destruct w as [f files t u].
    destruct f as [lines rc|lines e|lines]; reduce_task;
      match goal with |- trace_shape _ ?w _ => set (w0 := w) end.
    + destruct (rc =? 0); reduce_task; [|close_shape Video w0].
      after_fetch Video w0 files t u.
    + split_exn e; reduce_task; close_shape Video w0.
    + close_shape Video w0.
  - unfold download_and_process_audio. reduce_task.
    destruct (audio_format_argument_returns (selected_audio_format j)) as [expr ->].
    reduce_task. rewrite run_with_progress_eq.
    destruct w as [f files t u].
    destruct f as [lines rc|lines e|lines]; reduce_task;
      match goal with |- trace_shape _ ?w _ => set (w0 := w) end.
    + destruct (rc =? 0); reduce_task; [|close_shape Audio w0].
      after_fetch Audio w0 files t u.
    + split_exn e; reduce_task; close_shape Audio w0.
    + close_shape Audio w0.
Qed.

End TraceShape.

(** * Replaying a trace on the store *)

Section Replay.
#[local] Open Scope list_scope.

Lemma observed_track tid (tasks : gmap string status_record) r ws :
  tasks !! tid = Some r -> observed tid tasks ws = track r ws.
Proof.
  unfold observed. revert tasks r.
  induction ws as [|w ws IH]; intros tasks r Hr; [done|].
  assert (exec_write tid w tasks = Some (<[tid := write_record w r]> tasks)) as Hw.
  { destruct w; simpl; by rewrite ?Hr. }
  simpl. rewrite Hw. simpl. unfold get_task_status at 1.
  rewrite lookup_insert_eq. f_equal. apply IH. by rewrite lookup_insert_eq.
Qed.

(** Once the entry is assigned no later write of the trace can fail. *)
Lemma observed_assign tid (tasks : gmap string status_record) r ws :
  observed tid tasks (Assign r :: ws) = r :: track r ws.
Proof.
  unfold observed. simpl. unfold get_task_status at 1.
  rewrite lookup_insert_eq. f_equal.
  apply (observed_track tid). by rewrite lookup_insert_eq.
Qed.

Lemma default_last_cons {A} (d d' a : A) l :
  default d (last (a :: l)) = default d' (last (a :: l)).
Proof.
  destruct (last (a :: l)) eqn:E; [done|]. by apply last_None in E.
Qed.

Lemma track_app r ws1 ws2 :
  track r (ws1 ++ ws2) = track r ws1 ++ track (default r (last (track r ws1))) ws2.
Proof.
  revert r. induction ws1 as [|w ws1 IH]; intros r; [done|].
  simpl. rewrite IH. do 2 f_equal.
  destruct ws1 as [|w' ws1]; [done|]. simpl. f_equal. apply default_last_cons.
Qed.

Lemma track_snoc_assign r ws r' : last (track r (ws ++ [Assign r'])) = Some r'.
Proof. rewrite track_app. simpl. by rewrite last_snoc. Qed.

Lemma track_length r ws : length (track r ws) = length ws.
Proof. revert r. induction ws as [|w ws IH]; intros r; simpl; auto. Qed.

Lemma track_progress r ws :
  map progress (track r ws) = progress_values (progress r) ws.
Proof.
  revert r. induction ws as [|w ws IH]; intros r; [done|].
  simpl. rewrite IH. by destruct w.
Qed.

End Replay.

(** * Sequences of progress values *)

Section ProgressFacts.
#[local] Open Scope list_scope.






Lemma fetch_progress_values name lines cur :
  progress_values cur (fetch_writes name lines) = twice (omap line_percent lines).
Proof.
  unfold fetch_writes, twice. revert cur.
  induction lines as [|l lines IH]; intros cur; [done|].
  simpl. unfold line_writes at 1.
  destruct (line_percent l) as [p|]; simpl; [|apply IH].
  by rewrite IH.
Qed.

Lemma transcode_progress_values name b elapsed cur :
  progress_values cur (transcode_writes name b elapsed)
  = twice (map (transcode_percent b) elapsed).
Proof.
  unfold transcode_writes, twice. revert cur.
  induction elapsed as [|e elapsed IH]; intros cur; [done|].
  simpl. by rewrite IH.
Qed.

Lemma progress_values_app cur ws1 ws2 :
  progress_values cur (ws1 ++ ws2)
  = progress_values cur ws1
      ++ progress_values (default cur (last (progress_values cur ws1))) ws2.
Proof.
  revert cur. induction ws1 as [|w ws1 IH]; intros cur; [done|].
  destruct w; simpl; rewrite IH; do 2 f_equal;
    (destruct ws1 as [|w ws1]; [done|]);
    rewrite last_cons;
    (destruct (last (progress_values _ (w :: ws1))) eqn:E; [done|]);
    apply last_None in E; by destruct w.
Qed.

End ProgressFacts.

(** * The progress mapper *)

Section MapperFacts.

Lemma int_of_float_nonneg x : (0 <= x)%Q -> int_of_float x = Qfloor x.
Proof.
  intros H. unfold int_of_float.
  by rewrite (proj2 (Qle_bool_iff 0 x) H).
Qed.

Lemma Qfloor_nonneg x : (0 <= x)%Q -> 0 <= Qfloor x.
Proof. intros H. apply (Qfloor_resp_le 0 x H). Qed.


Lemma inject_Z_pos_inv t : 0 < t -> (0 <= / inject_Z t)%Q.
Proof.
  intros Ht. apply Qinv_le_0_compat.
  change 0%Q with (inject_Z 0). rewrite <- Zle_Qle. lia.
Qed.


Lemma scaled_nonneg (x : Q) (t c : Z) :
  0 < t -> 0 <= c -> (0 <= x)%Q -> (0 <= x / inject_Z t * inject_Z c)%Q.
Proof.
  intros Ht Hc Hx.
  apply Qmult_le_0_compat.
  - apply Qmult_le_0_compat; [done|by apply inject_Z_pos_inv].
  - change 0%Q with (inject_Z 0). rewrite <- Zle_Qle. lia.
Qed.


Lemma fetch_percent_le_45 d t : fetch_percent d t <= 45.
Proof. unfold fetch_percent. lia. Qed.




Lemma transcode_percent_range b e :
  0 < b -> (0 <= e)%Q -> 60 <= transcode_percent b e <= 90.
Proof.
  intros Hb He. unfold transcode_percent.
  assert (0 <= e / inject_Z b * inject_Z 30)%Q as H
    by (apply scaled_nonneg; [done|lia|done]).
  rewrite (int_of_float_nonneg _ H). pose proof (Qfloor_nonneg _ H). lia.
Qed.


End MapperFacts.

(** * Progress lines *)

Section LineFacts.
Import PyStr.








End LineFacts.

(** * Records observed during a job *)

Section RecordFacts.
#[local] Open Scope list_scope.

Lemma track_nonterminal r ws :
  is_terminal r = false ->
  forallb nonterminal_write ws = true ->
  Forall (fun r' => is_terminal r' = false) (track r ws).
Proof.
  revert r. induction ws as [|w ws IH]; intros r Hr; simpl; [constructor|].
  intros [Hw Hws]%andb_prop.
  assert (is_terminal (write_record w r) = false) as Hr'.
  { destruct w; simpl in *; [by apply negb_true_iff|done|done]. }
  constructor; [done|by apply IH].
Qed.

Lemma fetch_writes_nonterminal name lines :
  forallb nonterminal_write (fetch_writes name lines) = true.
Proof.
  unfold fetch_writes. induction lines as [|l lines IH]; [done|].
  simpl. rewrite forallb_app, IH, andb_true_r.
  unfold line_writes. by destruct (line_percent l).
Qed.

Lemma transcode_writes_nonterminal name b elapsed :
  forallb nonterminal_write (transcode_writes name b elapsed) = true.
Proof.
  unfold transcode_writes. induction elapsed as [|e elapsed IH]; [done|].
  simpl. exact IH.
Qed.

Lemma line_percent_le_45 line p : line_percent line = Some p -> p <= 45.
Proof.
  unfold line_percent. intros H.
  destruct (progress_of_line line) as [[q|]|] eqn:E; simplify_eq.
  revert E. unfold progress_of_line, mbind, res_bind.
  repeat (case_match; try done); intros E; injection E as <-;
    apply fetch_percent_le_45.
Qed.


Lemma Forall_twice (P : Z -> Prop) l : Forall P (twice l) <-> Forall P l.
Proof.
  induction l as [|x l IH]; [done|].
  change (twice (x :: l)) with (x :: x :: twice l).
  rewrite !Forall_cons, IH. tauto.
Qed.

(** The records of a trace that starts by assigning [seed]: those of its
    body, then those of its end. *)
Lemma observed_split tid (tasks : gmap string status_record) seed body fin :
  observed tid tasks (Assign seed :: body ++ fin)
  = (seed :: track seed body)
      ++ track (default seed (last (track seed body))) fin.
Proof. by rewrite observed_assign, track_app. Qed.

Lemma last_observed_snoc tid (tasks : gmap string status_record) seed body r :
  last (observed tid tasks (Assign seed :: body ++ [Assign r])) = Some r.
Proof.
  rewrite observed_assign, last_cons, track_snoc_assign. done.
Qed.

(** *** Stage bodies *)

Lemma fetch_writes_blocks name lines : blocks (fetch_writes name lines).
Proof.
  unfold fetch_writes. induction lines as [|l lines IH]; [constructor|].
  simpl. unfold line_writes at 1. destruct (line_percent l); [|done].
  by constructor.
Qed.

Lemma transcode_writes_blocks name b elapsed : blocks (transcode_writes name b elapsed).
Proof.
  unfold transcode_writes. induction elapsed as [|e elapsed IH]; [constructor|].
  simpl. by constructor.
Qed.

Lemma blocks_app ws1 ws2 : blocks ws1 -> blocks ws2 -> blocks (ws1 ++ ws2).
Proof. induction 1; simpl; intros; [done|constructor; auto..]. Qed.

Lemma fetch_writes_no_assign name lines :
  assigned_statuses (fetch_writes name lines) = [].
Proof.
  unfold fetch_writes, assigned_statuses.
  induction lines as [|l lines IH]; [done|].
  simpl. rewrite omap_app, IH, app_nil_r.
  unfold line_writes. by destruct (line_percent l).
Qed.

Lemma transcode_writes_no_assign name b elapsed :
  assigned_statuses (transcode_writes name b elapsed) = [].
Proof.
  unfold transcode_writes, assigned_statuses.
  induction elapsed as [|e elapsed IH]; [done|]. simpl. exact IH.
Qed.

Lemma assigned_statuses_app ws1 ws2 :
  assigned_statuses (ws1 ++ ws2) = assigned_statuses ws1 ++ assigned_statuses ws2.
Proof. apply omap_app. Qed.

Lemma assigned_statuses_assign r ws :
  assigned_statuses (Assign r :: ws) = status r :: assigned_statuses ws.
Proof. done. Qed.

Lemma assigned_statuses_progress n ws :
  assigned_statuses (SetProgress n :: ws) = assigned_statuses ws.
Proof. done. Qed.

Lemma assigned_statuses_message s ws :
  assigned_statuses (SetMessage s :: ws) = assigned_statuses ws.
Proof. done. Qed.

Lemma assigned_statuses_nil : assigned_statuses [] = [].
Proof. done. Qed.

Lemma budget_pos k : 0 < budget k.
Proof. by destruct k. Qed.



End RecordFacts.

Create Rewrite HintDb statuses.
#[global] Hint Rewrite assigned_statuses_app assigned_statuses_assign
  assigned_statuses_progress assigned_statuses_message assigned_statuses_nil
  fetch_writes_no_assign transcode_writes_no_assign : statuses.

(** * Claims on the progress mapper and the pipelines *)

(** Runs a pipeline up to the end of the fetch loop. *)
Ltac run_pipeline k j :=
  unfold final_record, job_records, job_trace, job_run;
  destruct k; cbn [submit pipeline];
  [ unfold download_and_process_video; reduce_task;
    destruct (selector_returns (quality j) (selected_video_format j)
                (selected_audio_format j)) as [? ->]
  | unfold download_and_process_audio; reduce_task;
    destruct (audio_format_argument_returns (selected_audio_format j)) as [? ->] ];
  reduce_task; rewrite run_with_progress_eq; reduce_task.

Section PipelineClaims.
#[local] Open Scope list_scope.

Lemma last_observed_fetch_end tid (tasks : gmap string status_record)
    seed w1 w2 w3 ws r :
  last (observed tid tasks (Assign seed :: w1 :: w2 :: w3 :: ws ++ [Assign r]))
  = Some r.
Proof. exact (last_observed_snoc tid tasks seed (w1 :: w2 :: w3 :: ws) r). Qed.







(** C3, as the code has it. A job's trace is made of whole-record
    assignments and of in-place updates, each update being an assignment of
    the progress field followed by one of the message field of the record
    already stored. Every change of status is a whole-record assignment, and
    the statuses assigned follow pending, downloading, processing, then
    completed or failed; an in-place update leaves status, download_url and
    error as they are. *)
Theorem status_changes_replace_whole_record k j w :
  blocks (job_trace k j w) /\
  assigned_statuses (job_trace k j w) ∈
    [ ["pending"; "downloading"];
      ["pending"; "downloading"; "failed"];
      ["pending"; "downloading"; "processing"];
      ["pending"; "downloading"; "processing"; "failed"];
      ["pending"; "downloading"; "processing"; "completed"] ] /\
  (forall wr r, wr ∈ job_trace k j w -> is_Assign wr = false ->
     status (write_record wr r) = status r /\
     download_url (write_record wr r) = download_url r /\
     error (write_record wr r) = error r).
Proof.
  destruct (job_trace_shape k j w)
    as (seed & dl & m & rest & -> & [Hs1 Hs2] & [Hd1 Hd2] & _ & Hrest).
  split; [|split].
  - do 3 constructor. apply blocks_app; [apply fetch_writes_blocks|].
    destruct Hrest as [[->|(r & -> & _)]|(pr & m' & rest2 & -> & _ & _ & Hend)];
      [constructor|do 2 constructor|].
    do 2 constructor. apply blocks_app; [apply transcode_writes_blocks|].
    destruct Hend as [->|(r & -> & _)]; [constructor|do 2 constructor].
  - destruct Hrest as [[->|(r & -> & Hr & _)]|(pr & m' & rest2 & -> & [Hp1 _] & _ & Hend)];
      [| |destruct Hend as [->|(r & -> & [[Hr _]|[Hr _]])]];
      autorewrite with statuses; rewrite ?Hs1, ?Hd1, ?Hp1, ?Hr;
      cbn [app]; set_solver.
  - intros wr r _ Hwr. by destruct wr.
Qed.

Lemma status_changes_replace_whole_record_witness :
  SetProgress 10 ∈ job_trace Video demo_job steady_world /\
  is_Assign (SetProgress 10) = false /\
  status (write_record (SetProgress 10) (record3 "downloading" 5 "Starting download..."))
  = "downloading".
Proof.
  assert (SetProgress 10 ∈ job_trace Video demo_job steady_world) as H
    by (vm_compute; do 2 right; left).
  split; [exact H|]. split; [reflexivity|].
  destruct (status_changes_replace_whole_record Video demo_job steady_world)
    as (_ & _ & Hkeep).
  exact (proj1 (Hkeep (SetProgress 10)
                  (record3 "downloading" 5 "Starting download...") H eq_refl)).
Defined.

(** C3, as stated, fails: the write that follows a progress line assigns the
    progress field of the stored record, and until the message field is
    assigned in turn the record holds the new progress next to the message
    of the previous step. *)
Lemma in_place_update_counterexample :
  forallb is_Assign (job_trace Video demo_job steady_world) = false /\
  job_trace Video demo_job steady_world !! 4%nat = Some (SetProgress 25) /\
  job_records Video demo_job steady_world ∅ !! 4%nat
  = Some {| status := "downloading"; progress := 25;
            message := "Downloading video...";
            download_url := None; error := None |} /\
  job_records Video demo_job steady_world ∅ !! 5%nat
  = Some {| status := "downloading"; progress := 25;
            message := "Downloading video... 25%";
            download_url := None; error := None |}.
Proof. by vm_compute. Qed.

(** *** The fields of the records of a job *)

Lemma bare_fields_ok r : bare r -> status r <> "completed" -> fields_ok r = true.
Proof.
  intros [Hu He] Hst. unfold fields_ok. rewrite Hu, He.
  destruct (String.eqb_spec (status r) "completed"); done.
Qed.

Lemma failed_fields_ok r : failed_shape r -> fields_ok r = true.
Proof.
  intros (Hst & _ & Hu). unfold fields_ok. rewrite Hst, Hu. cbn.
  apply orb_true_r.
Qed.

Lemma completed_fields_ok r : completed_shape r -> fields_ok r = true.
Proof.
  intros (Hst & _ & Hu & He). unfold fields_ok. rewrite Hst, He.
  by rewrite (bool_decide_eq_true_2 _ Hu).
Qed.

Lemma track_fields_ok r ws :
  fields_ok r = true ->
  forallb write_fields_ok ws = true ->
  Forall (fun r' => fields_ok r' = true) (track r ws).
Proof.
  revert r. induction ws as [|wr ws IH]; intros r Hr; simpl; [constructor|].
  intros [Hw Hws]%andb_prop.
  assert (fields_ok (write_record wr r) = true) as Hr' by (by destruct wr).
  constructor; [done|by apply IH].
Qed.

Lemma fetch_writes_fields_ok name lines :
  forallb write_fields_ok (fetch_writes name lines) = true.
Proof.
  unfold fetch_writes. induction lines as [|l lines IH]; [done|].
  simpl. rewrite forallb_app, IH, andb_true_r.
  unfold line_writes. by destruct (line_percent l).
Qed.

Lemma transcode_writes_fields_ok name b elapsed :
  forallb write_fields_ok (transcode_writes name b elapsed) = true.
Proof.
  unfold transcode_writes. induction elapsed as [|e elapsed IH]; [done|].
  simpl. exact IH.
Qed.

Lemma job_records_fields_ok k j w (tasks : gmap string status_record) :
  Forall (fun r => fields_ok r = true) (job_records k j w tasks).
Proof.
  destruct (job_trace_shape k j w)
    as (seed & dl & m & rest & Htr & [Hs1 _] & [Hd1 _] & [Hbs Hbd] & Hrest).
  unfold job_records. rewrite Htr, observed_assign.
  assert (fields_ok seed = true) as Hseed
    by (apply bare_fields_ok; [done|by rewrite Hs1]).
  assert (fields_ok dl = true) as Hdl
    by (apply bare_fields_ok; [done|by rewrite Hd1]).
  constructor; [done|]. apply track_fields_ok; [done|].
  cbn [forallb write_fields_ok]. rewrite Hdl. cbn [andb].
  rewrite forallb_app, fetch_writes_fields_ok. cbn [andb].
  destruct Hrest as [[->|(r & -> & Hr)]|(pr & m' & rest2 & -> & [Hp1 _] & Hbp & Hend)].
  - done.
  - cbn. by rewrite (failed_fields_ok r Hr).
  - cbn [forallb write_fields_ok].
    rewrite (bare_fields_ok pr Hbp) by (by rewrite Hp1). cbn [andb].
    rewrite forallb_app, transcode_writes_fields_ok. cbn [andb].
    destruct Hend as [->|(r & -> & [Hr|Hr])]; cbn;
      by rewrite ?(failed_fields_ok r Hr), ?(completed_fields_ok r Hr).
Qed.

(** In every record of a job, [download_url] is set exactly when the status
    is completed, [error] is set only when the status is failed, and the two
    are never set together. What the code does not ensure is that a failed
    record has [error] set. *)
Lemma terminal_record_fields k j w (tasks : gmap string status_record) r :
  r ∈ job_records k j w tasks ->
  (status r = "completed" -> is_Some (download_url r) /\ error r = None) /\
  (status r = "failed" -> download_url r = None) /\
  (is_Some (error r) -> status r = "failed") /\
  ~ (is_Some (download_url r) /\ is_Some (error r)).
Proof.
  intros Hin.
  pose proof (job_records_fields_ok k j w tasks) as Hall.
  rewrite Forall_forall in Hall. specialize (Hall r Hin).
  unfold fields_ok in Hall. apply andb_prop in Hall as [H1 H2].
  apply Bool.eqb_prop in H1. apply orb_prop in H2.
  assert (is_Some (download_url r) <-> status r = "completed") as Hurl.
  { rewrite <- String.eqb_eq, <- H1. by rewrite bool_decide_eq_true. }
  assert (is_Some (error r) -> status r = "failed") as Herr.
  { intros He. destruct H2 as [H2|H2]; [|by apply String.eqb_eq].
    apply negb_true_iff, bool_decide_eq_false in H2. done. }
  split; [|split; [|split]].
  - intros Hc. split; [by apply Hurl|].
    destruct (error r) as [e|] eqn:E; [|done].
    assert (status r = "failed") as Hf by (apply Herr; eauto). congruence.
  - intros Hf. destruct (download_url r) as [u|] eqn:E; [|done].
    assert (status r = "completed") as Hc by (apply Hurl; eauto). congruence.
  - exact Herr.
  - intros [Hu He]. apply Hurl in Hu. apply Herr in He. congruence.
Qed.

(** C1, on the path where the fetch tool exits with code 0 and no
    downloaded file is found: the last record written is a failed record
    without an error field. *)
Theorem no_file_found_record_lacks_error k j lines t u
    (tasks : gmap string status_record) :
  let w := {| fetch := FetchExits lines 0; downloaded_files := [];
              transcode := t; unlink := u |} in
  exists r, final_record k j w tasks = Some r /\
    status r = "failed" /\ error r = None /\ download_url r = None.
Proof.
  cbv zeta. run_pipeline k j; rewrite <- ?app_assoc; cbn [app];
    (eexists; split; [apply last_observed_fetch_end|done]).
Qed.

(** C4, on a fetch tool that neither closes its output nor exits: the task
    never returns and no record observed is terminal, so no timeout ends
    the fetch stage. *)
Theorem blocked_fetch_never_times_out k j lines files t u
    (tasks : gmap string status_record) :
  let w := {| fetch := FetchBlocks lines; downloaded_files := files;
              transcode := t; unlink := u |} in
  (job_run k j w).2 = NeverReturns /\
  Forall (fun r => is_terminal r = false) (job_records k j w tasks).
Proof.
  cbv zeta. split.
  - unfold job_run. run_pipeline k j; done.
  - run_pipeline k j;
      (rewrite observed_assign; constructor; [done|];
       apply track_nonterminal; [done|];
       cbn [forallb nonterminal_write]; apply fetch_writes_nonterminal).
Qed.

(** C5. When the fetch tool exits with a non-zero code, the task returns
    without an exception, and the last record written is a failed record
    whose error is exactly "Process exited with non-zero code". *)
Theorem nonzero_exit_reported_as_failure k j lines rc files t u
    (tasks : gmap string status_record) :
  rc <> 0 ->
  let w := {| fetch := FetchExits lines rc; downloaded_files := files;
              transcode := t; unlink := u |} in
  (job_run k j w).2 = Finished /\
  exists r, final_record k j w tasks = Some r /\
    status r = "failed" /\
    error r = Some "Process exited with non-zero code" /\
    download_url r = None.
Proof.
  intros Hrc. cbv zeta.
  assert ((rc =? 0) = false) as E by (by apply Z.eqb_neq).
  split.
  - unfold job_run. run_pipeline k j; rewrite E; done.
  - run_pipeline k j; rewrite E; reduce_task;
      rewrite <- ?app_assoc; cbn [app];
      (eexists; split; [apply last_observed_fetch_end|done]).
Qed.

Lemma nonzero_exit_reported_as_failure_witness :
  1 <> 0 /\
  (job_run Video demo_job regressing_world).2 = Finished /\
  exists r, final_record Video demo_job regressing_world ∅ = Some r /\
    status r = "failed" /\
    error r = Some "Process exited with non-zero code" /\
    download_url r = None.
Proof.
  split; [lia|].
  apply (nonzero_exit_reported_as_failure Video demo_job
           ["download:50/100"; "download:10/100"] 1 [] (TranscodeExits [] 0 "") None ∅).
  lia.
Defined.

End PipelineClaims.

(** * Further properties of the job store and of the pipelines *)

Section StoreProperties.
#[local] Open Scope list_scope.



Lemma snapshots_length tid (tasks : gmap string status_record) ws :
  is_Some (tasks !! tid) -> length (snapshots tid tasks ws) = length ws.
Proof.
  revert tasks. induction ws as [|wr ws IH]; intros tasks [r Hr]; [done|].
  assert (exec_write tid wr tasks = Some (<[tid := write_record wr r]> tasks)) as Hw.
  { destruct wr; simpl; by rewrite ?Hr. }
  simpl. rewrite Hw. simpl. f_equal. apply IH. rewrite lookup_insert_eq. eauto.
Qed.

Lemma last_track_replay seed ws :
  last (seed :: track seed ws) = Some (replay seed ws).
Proof.
  revert seed. induction ws as [|wr ws IH]; intros seed; [done|].
  cbn [track]. rewrite last_cons_cons. apply IH.
Qed.

Lemma last_observed_replay tid (tasks : gmap string status_record) seed ws :
  last (observed tid tasks (Assign seed :: ws)) = Some (replay seed ws).
Proof. rewrite observed_assign. apply last_track_replay. Qed.

Lemma replay_app r ws1 ws2 : replay r (ws1 ++ ws2) = replay (replay r ws1) ws2.
Proof. apply foldl_app. Qed.

Lemma replay_cons r wr ws : replay r (wr :: ws) = replay (write_record wr r) ws.
Proof. done. Qed.

Lemma replay_nil r : replay r [] = r.
Proof. done. Qed.

(** In-place updates leave the status and the two optional fields. *)
Lemma replay_updates r ws :
  forallb (fun wr => negb (is_Assign wr)) ws = true ->
  status (replay r ws) = status r /\
  download_url (replay r ws) = download_url r /\
  error (replay r ws) = error r.
Proof.
  revert r. induction ws as [|wr ws IH]; intros r; [done|].
  cbn [forallb]. intros [Hw Hws]%andb_prop. rewrite replay_cons.
  destruct (IH (write_record wr r) Hws) as (-> & -> & ->).
  by destruct wr.
Qed.

Lemma fetch_writes_updates name lines :
  forallb (fun wr => negb (is_Assign wr)) (fetch_writes name lines) = true.
Proof.
  unfold fetch_writes. induction lines as [|l lines IH]; [done|].
  simpl. rewrite forallb_app, IH, andb_true_r.
  unfold line_writes. by destruct (line_percent l).
Qed.

Lemma transcode_writes_updates name b elapsed :
  forallb (fun wr => negb (is_Assign wr)) (transcode_writes name b elapsed) = true.
Proof.
  unfold transcode_writes. induction elapsed as [|e elapsed IH]; [done|].
  simpl. exact IH.
Qed.

Lemma is_terminal_replay r ws :
  forallb (fun wr => negb (is_Assign wr)) ws = true ->
  is_terminal (replay r ws) = is_terminal r.
Proof.
  intros H. unfold is_terminal. by destruct (replay_updates r ws H) as (-> & _).
Qed.

Lemma is_terminal_replay_fetch r name lines :
  is_terminal (replay r (fetch_writes name lines)) = is_terminal r.
Proof. apply is_terminal_replay, fetch_writes_updates. Qed.

Lemma is_terminal_replay_transcode r name b elapsed :
  is_terminal (replay r (transcode_writes name b elapsed)) = is_terminal r.
Proof. apply is_terminal_replay, transcode_writes_updates. Qed.

Lemma status_replay_fetch r name lines :
  status (replay r (fetch_writes name lines)) = status r.
Proof. apply replay_updates, fetch_writes_updates. Qed.

Lemma status_replay_transcode r name b elapsed :
  status (replay r (transcode_writes name b elapsed)) = status r.
Proof. apply replay_updates, transcode_writes_updates. Qed.

End StoreProperties.

Create Rewrite HintDb replay.
#[global] Hint Rewrite replay_app replay_cons replay_nil : replay.

(** Splits a run into its cases, each reduced to its trace. *)
Ltac explore_job k j w :=
  let f := fresh "f" in let files := fresh "files" in
  let t := fresh "t" in let u := fresh "u" in
  let c1 := fresh "code" in let c2 := fresh "code" in
  let x1 := fresh "exc" in let x2 := fresh "exc" in let x3 := fresh "exc" in
  destruct w as [f files t u];
  unfold final_record, job_records, job_trace, job_run, success_world, first_raise;
  destruct k; cbn [submit pipeline fetch downloaded_files transcode unlink];
  [ unfold download_and_process_video; reduce_task;
    destruct (selector_returns (quality j) (selected_video_format j)
                (selected_audio_format j)) as [? ->]
  | unfold download_and_process_audio; reduce_task;
    destruct (audio_format_argument_returns (selected_audio_format j)) as [? ->] ];
  reduce_task; rewrite run_with_progress_eq;
  (destruct f as [? c1|? x1|?]; reduce_task;
   [ destruct (c1 =? 0) eqn:?; reduce_task;
     [ destruct files as [|? ?]; reduce_task;
       [ | rewrite run_ffmpeg_with_progress_eq;
           destruct t as [? c2 ?|? x2]; reduce_task;
           [ destruct (c2 =? 0) eqn:?; reduce_task;
             [ destruct u as [x3|]; reduce_task; [split_exn x3; reduce_task|] | ]
           | split_exn x2; reduce_task ] ]
     | ]
   | split_exn x1; reduce_task
   | ]).

(** Brings the last record of a reduced trace into view. *)
Ltac settle_final :=
  rewrite ?last_observed_replay; autorewrite with replay; cbn [write_record].

Section Outcomes.

(** Whether the task of a job returns is told by its last record: the task
    returns exactly when that record is terminal. A task that never returns
    or lets an exception escape leaves a record that is not terminal. *)
Theorem task_returns_iff_terminal k j w (tasks : gmap string status_record) :
  (job_run k j w).2 = Finished <->
  exists r, final_record k j w tasks = Some r /\ is_terminal r = true.
Proof.
  explore_job k j w; settle_final;
    (split;
     [ first [ discriminate | intros _; eexists; split; reflexivity ]
     | first [ done
             | intros (r & [= <-] & Hr);
               rewrite ?is_terminal_replay_fetch, ?is_terminal_replay_transcode in Hr;
               discriminate ] ]).
Qed.

(** A completed record is the last record of a job exactly when the fetch
    tool exited with code 0, a downloaded file was found, the transcode tool
    exited with code 0 and removing the downloaded file raised nothing. *)
Theorem completed_iff_every_step_succeeds k j w (tasks : gmap string status_record) :
  (exists r, final_record k j w tasks = Some r /\ status r = "completed") <->
  success_world w = true.
Proof.
  explore_job k j w; settle_final;
    (split;
     [ intros (r & [= <-] & Hr);
       rewrite ?status_replay_fetch, ?status_replay_transcode in Hr;
       first [ done | cbn in Hr; discriminate ]
     | first [ discriminate
             | intros _; eexists; split; reflexivity
             | intros H; repeat case_match; discriminate ] ]).
Qed.

(** The completed record carries the address of the file produced, named by
    the task id and the output format (for an audio job, [mp3] when the
    format is not one the audio task knows), with progress 100 and no
    error. *)
Theorem completed_record_fields k j w (tasks : gmap string status_record) r :
  final_record k j w tasks = Some r -> status r = "completed" ->
  download_url r = Some ("/downloads/" ++ task_id j ++ "." ++ output_extension k j) /\
  progress r = 100 /\ error r = None.
Proof.
  explore_job k j w; settle_final; intros [= <-];
    rewrite ?status_replay_fetch, ?status_replay_transcode;
    intros Hst; try (cbn in Hst; discriminate); cbn;
    try (destruct (known_audio_format (output_format j)) eqn:E; rewrite ?E); done.
Qed.

Lemma completed_record_fields_witness :
  final_record Video demo_job steady_world ∅
  = Some (completed_record "Ready for download" "/downloads/job-1.mp4") /\
  status (completed_record "Ready for download" "/downloads/job-1.mp4") = "completed" /\
  download_url (completed_record "Ready for download" "/downloads/job-1.mp4")
  = Some ("/downloads/" ++ task_id demo_job ++ "." ++ output_extension Video demo_job).
Proof.
  assert (final_record Video demo_job steady_world ∅
          = Some (completed_record "Ready for download" "/downloads/job-1.mp4")) as H
    by (by vm_compute).
  split; [exact H|]. split; [reflexivity|].
  exact (proj1 (completed_record_fields Video demo_job steady_world ∅ _ H eq_refl)).
Defined.

(** An exception raised while the fetch tool is awaited, other than a
    [TimeoutError], does not escape the task: the last record is a failed
    record whose error is the text of the exception. *)
Theorem fetch_exception_reported k j w (tasks : gmap string status_record) lines e :
  fetch w = FetchRaises lines e ->
  is_Exception e = true -> is_TimeoutError e = false ->
  (job_run k j w).2 = Finished /\
  exists msg, final_record k j w tasks = Some (failed_record msg (exn_str e)).
Proof.
  explore_job k j w; settle_final; intros; simplify_eq;
    try (cbn in *; discriminate); (split; [done|by eexists]).
Qed.

Lemma fetch_exception_reported_witness :
  (job_run Video demo_job missing_tool_world).2 = Finished /\
  exists msg, final_record Video demo_job missing_tool_world ∅
    = Some (failed_record msg "[Errno 2] No such file or directory").
Proof.
  apply (fetch_exception_reported Video demo_job missing_tool_world ∅ []
           {| exn_cls := OtherException;
              exn_str := "[Errno 2] No such file or directory" |});
    reflexivity.
Defined.

(** A [TimeoutError] raised while the fetch tool is awaited is reported by
    its own failed record, with a fixed error text. *)
Theorem fetch_timeout_error_reported k j w (tasks : gmap string status_record) lines e :
  fetch w = FetchRaises lines e -> is_TimeoutError e = true ->
  (job_run k j w).2 = Finished /\
  final_record k j w tasks
  = Some (failed_record "Download timeout"
            match k with
            | Video => "Download took too long"
            | Audio => "Audio download took too long"
            end).
Proof.
  explore_job k j w; settle_final; intros; simplify_eq;
    try (cbn in *; discriminate); done.
Qed.

Lemma fetch_timeout_error_reported_witness :
  (job_run Audio demo_job timeout_world).2 = Finished /\
  final_record Audio demo_job timeout_world ∅
  = Some (failed_record "Download timeout" "Audio download took too long").
Proof.
  apply (fetch_timeout_error_reported Audio demo_job timeout_world ∅
           ["download:10/100"] {| exn_cls := TimeoutError; exn_str := "" |});
    reflexivity.
Defined.

(** An exception raised while the transcode tool is awaited, whatever its
    class below [Exception], ends the job with a failed record whose error
    is the text of the exception. *)
Theorem transcode_exception_reported k j w (tasks : gmap string status_record)
    lines elapsed e :
  fetch w = FetchExits lines 0 -> downloaded_files w <> [] ->
  transcode w = TranscodeRaises elapsed e -> is_Exception e = true ->
  (job_run k j w).2 = Finished /\
  exists msg, final_record k j w tasks = Some (failed_record msg (exn_str e)).
Proof.
  explore_job k j w; settle_final; intros; simplify_eq;
    try (cbn in *; discriminate); (split; [done|by eexists]).
Qed.

Lemma transcode_exception_reported_witness :
  (job_run Video demo_job transcode_crash_world).2 = Finished /\
  exists msg, final_record Video demo_job transcode_crash_world ∅
    = Some (failed_record msg "[Errno 2] No such file or directory").
Proof.
  apply (transcode_exception_reported Video demo_job transcode_crash_world ∅
           ["download:100/100"] []
           {| exn_cls := OtherException;
              exn_str := "[Errno 2] No such file or directory" |});
    [reflexivity|discriminate|reflexivity|reflexivity].
Defined.

(** When the transcode tool exits with code 0 but the removal of the
    downloaded file raises, the job ends with a failed record carrying the
    text of that exception, and no completed record is written. *)
Theorem unlink_failure_fails_job k j w (tasks : gmap string status_record)
    lines elapsed stderr e :
  fetch w = FetchExits lines 0 -> downloaded_files w <> [] ->
  transcode w = TranscodeExits elapsed 0 stderr -> unlink w = Some e ->
  is_Exception e = true ->
  (job_run k j w).2 = Finished /\
  exists msg, final_record k j w tasks = Some (failed_record msg (exn_str e)).
Proof.
  explore_job k j w; settle_final; intros; simplify_eq;
    try (cbn in *; discriminate); (split; [done|by eexists]).
Qed.

Lemma unlink_failure_fails_job_witness :
  (job_run Video demo_job locked_file_world).2 = Finished /\
  exists msg, final_record Video demo_job locked_file_world ∅
    = Some (failed_record msg "[WinError 32] file in use").
Proof.
  apply (unlink_failure_fails_job Video demo_job locked_file_world ∅
           ["download:100/100"] [0 # 1]%Q ""
           {| exn_cls := OtherException; exn_str := "[WinError 32] file in use" |});
    [reflexivity|discriminate|reflexivity|reflexivity|reflexivity].
Defined.

(** A non-zero exit code of the transcode tool ends the job with a failed
    record whose error is the captured error output, or "Unknown error" when
    nothing was captured; the removal of the downloaded file plays no part. *)
Theorem transcode_failure_reported k j w (tasks : gmap string status_record)
    lines elapsed rc2 stderr :
  fetch w = FetchExits lines 0 -> downloaded_files w <> [] ->
  transcode w = TranscodeExits elapsed rc2 stderr -> rc2 <> 0 ->
  (job_run k j w).2 = Finished /\
  exists msg, final_record k j w tasks
    = Some (failed_record msg (if decide (stderr = "") then "Unknown error" else stderr)).
Proof.
  explore_job k j w; settle_final; intros; simplify_eq;
    try (cbn in *; discriminate);
    try match goal with H : (?x =? 0) = true |- _ => apply Z.eqb_eq in H; congruence end;
    (split; [done|]; eexists; do 2 f_equal; by destruct stderr).
Qed.

Lemma transcode_failure_reported_witness :
  (job_run Audio demo_job silent_failure_world).2 = Finished /\
  exists msg, final_record Audio demo_job silent_failure_world ∅
    = Some (failed_record msg "Unknown error").
Proof.
  apply (transcode_failure_reported Audio demo_job silent_failure_world ∅
           ["download:100/100"] [0 # 1; 1 # 1]%Q 1 "");
    [reflexivity|discriminate|reflexivity|lia].
Defined.

(** An exception that is not an [Exception] (a cancellation, for instance)
    escapes the task from whichever step raises it, and no terminal record
    is written. *)
Theorem base_exception_escapes k j w (tasks : gmap string status_record) e :
  first_raise w = Some e -> is_Exception e = false ->
  (job_run k j w).2 = Propagated e /\
  Forall (fun r => is_terminal r = false) (job_records k j w tasks).
Proof.
  unfold job_records.
  explore_job k j w; intros; simplify_eq; try (cbn in *; discriminate);
    (split; [done|]); rewrite observed_assign;
    (constructor; [done|]); apply track_nonterminal; try done;
    rewrite <- ?app_assoc;
    repeat progress
      (cbn [app forallb nonterminal_write];
       rewrite ?forallb_app, ?app_nil_r, ?fetch_writes_nonterminal,
         ?transcode_writes_nonterminal);
    done.
Qed.

Lemma base_exception_escapes_witness :
  (job_run Video demo_job cancelled_world).2
  = Propagated {| exn_cls := BaseOnly; exn_str := "" |} /\
  Forall (fun r => is_terminal r = false) (job_records Video demo_job cancelled_world ∅).
Proof.
  apply (base_exception_escapes Video demo_job cancelled_world ∅
           {| exn_cls := BaseOnly; exn_str := "" |}); reflexivity.
Defined.

End Outcomes.

Section StoreClaims.
#[local] Open Scope list_scope.

Lemma job_trace_cons k j w :
  job_trace k j w = (submit k j).1 :: (run_task (pipeline k (submit k j).2 w)).1.
Proof.
  unfold job_trace, job_run. destruct (submit k j) as [seed j']. cbn [fst snd].
  by destruct (run_task (pipeline k j' w)).
Qed.

Lemma pipeline_after_submit k j w :
  pipeline k (submit k j).2 w = pipeline k j w.
Proof.
  destruct k; [done|].
  destruct j as [tid u f q ts te sv sa].
  cbn [submit snd pipeline]. unfold download_and_process_audio.
  cbn [task_id output_format selected_audio_format].
  destruct (known_audio_format f) eqn:E; [by rewrite E|done].
Qed.

(** The replacement of an unknown format by [mp3] in [process_audio] and the
    fallback of the audio task agree: the task started by the endpoint runs
    exactly as the task run on the request as it came. *)
Theorem submit_keeps_pipeline k j w :
  task_id (submit k j).2 = task_id j /\
  pipeline k (submit k j).2 w = pipeline k j w.
Proof.
  split; [|apply pipeline_after_submit].
  destruct k; [done|]. by destruct j.
Qed.

(** The background task alone never fails on the store: whatever the store
    holds when it starts (the entry of the job may even be missing), each of
    its writes succeeds, since its first write assigns the entry. *)
Theorem pipeline_writes_never_fail k j w (tasks : gmap string status_record) :
  length (snapshots (task_id j) tasks (run_task (pipeline k j w)).1)
  = length (run_task (pipeline k j w)).1.
Proof.
  destruct (job_trace_shape k j w) as (seed & dl & m & rest & Htr & _).
  rewrite job_trace_cons in Htr.
  rewrite pipeline_after_submit in Htr.
  injection Htr as _ ->.
  change (snapshots (task_id j) tasks (Assign dl :: ?ws))
    with (<[task_id j := dl]> tasks
            :: snapshots (task_id j) (<[task_id j := dl]> tasks) ws).
  cbn [length]. f_equal.
  apply snapshots_length. rewrite lookup_insert_eq. eauto.
Qed.



(** Once a job is submitted a poll of its id never answers 404, and the
    number of stores a poll can see is the number of writes of the job. *)
Theorem job_entry_always_present k j w (tasks : gmap string status_record) :
  length (job_records k j w tasks) = length (job_trace k j w) /\
  Forall (fun s => is_Some (get_task_status (task_id j) s))
         (snapshots (task_id j) tasks (job_trace k j w)).
Proof.
  destruct (job_trace_shape k j w) as (seed & dl & m & rest & Htr & _).
  unfold job_records. rewrite Htr. split.
  - rewrite observed_assign. cbn [length]. by rewrite track_length.
  - generalize (Assign seed :: Assign dl :: SetProgress 10 :: SetMessage m
                  :: fetch_writes (kind_name k) (fetch_lines (fetch w)) ++ rest).
    intros ws. generalize tasks. clear.
    induction ws as [|wr ws IH]; intros tasks; simpl; [constructor|].
    destruct (exec_write (task_id j) wr tasks) as [s|] eqn:E; [|constructor].
    constructor; [|apply IH].
    unfold get_task_status. destruct wr; simpl in E.
    + injection E as <-. rewrite lookup_insert_eq. eauto.
    + destruct (tasks !! task_id j); simpl in E; [|done].
      injection E as <-. rewrite lookup_insert_eq. eauto.
    + destruct (tasks !! task_id j); simpl in E; [|done].
      injection E as <-. rewrite lookup_insert_eq. eauto.
Qed.

End StoreClaims.

(** * Further properties of the progress mapper *)

Section MapperProperties.
#[local] Open Scope list_scope.





(** The estimate of the transcode stage for a non-negative elapsed time lies
    between 60 and 90 and reaches 90 exactly when the elapsed time reaches
    the budget of the job (30 seconds for video, 20 for audio). *)
Theorem transcode_percent_reaches_90 k (elapsed : Q) :
  (0 <= elapsed)%Q ->
  60 <= transcode_percent (budget k) elapsed <= 90 /\
  (transcode_percent (budget k) elapsed = 90 <-> (inject_Z (budget k) <= elapsed)%Q).
Proof.
  intros He. pose proof (budget_pos k) as Hb.
  split; [by apply transcode_percent_range|].
  unfold transcode_percent.
  set (x := (elapsed / inject_Z (budget k) * inject_Z 30)%Q).
  assert (0 <= x)%Q as Hx by (apply scaled_nonneg; [done|lia|done]).
  rewrite (int_of_float_nonneg _ Hx).
  assert ((inject_Z 30 <= x)%Q <-> (inject_Z (budget k) <= elapsed)%Q) as Hiff.
  { unfold x. destruct elapsed as [n m]. destruct k;
      unfold Qle, Qdiv, Qmult, Qinv, inject_Z; simpl; lia. }
  rewrite <- Hiff. split.
  - intros H. assert (30 <= Qfloor x) as H30 by lia.
    apply (Qle_trans _ (inject_Z (Qfloor x))); [|apply Qfloor_le].
    by rewrite <- Zle_Qle.
  - intros H. pose proof (Qfloor_resp_le _ _ H) as H30.
    rewrite Qfloor_Z in H30. lia.
Qed.

Lemma transcode_percent_reaches_90_witness :
  (0 <= 30 # 1)%Q /\
  transcode_percent (budget Video) (30 # 1) = 90 /\
  transcode_percent (budget Audio) (10 # 1) = 75.
Proof.
  split; [discriminate|]. split; [|reflexivity].
  apply (transcode_percent_reaches_90 Video (30 # 1)); discriminate.
Defined.

End MapperProperties.

Section ProgressBound.
#[local] Open Scope list_scope.

Lemma transcode_percent_le_90 b e : transcode_percent b e <= 90.
Proof. unfold transcode_percent. lia. Qed.

Lemma fetch_values_le_45 name lines cur :
  Forall (fun p => p <= 45) (progress_values cur (fetch_writes name lines)).
Proof.
  rewrite fetch_progress_values. apply Forall_twice.
  induction lines as [|l lines IH]; simpl; [constructor|].
  destruct (line_percent l) as [p|] eqn:E; simpl; [|done].
  constructor; [by eapply line_percent_le_45|done].
Qed.

Lemma transcode_values_le_90 name b elapsed cur :
  Forall (fun p => p <= 90) (progress_values cur (transcode_writes name b elapsed)).
Proof.
  rewrite transcode_progress_values. apply Forall_twice, Forall_fmap, Forall_true.
  intros e. apply transcode_percent_le_90.
Qed.

Lemma records_bounded tid (tasks : gmap string status_record) seed body fin :
  status seed = "pending" -> progress seed = 0 ->
  forallb nonterminal_write body = true ->
  Forall (fun p => p <= 90) (progress_values 0 body) ->
  ending fin ->
  Forall (fun r => progress r <= 100 /\ (progress r = 100 <-> status r = "completed"))
         (observed tid tasks (Assign seed :: body ++ fin)).
Proof.
  intros Hst Hpr Hnt Hle Hfin.
  assert (is_terminal seed = false) as Hseed
    by (unfold is_terminal; by rewrite Hst).
  rewrite observed_split. apply Forall_app. split.
  - assert (Forall (fun r => is_terminal r = false) (seed :: track seed body)) as Hn
      by (constructor; [done|by apply track_nonterminal]).
    assert (Forall (fun p => p <= 90) (map progress (seed :: track seed body))) as Hp.
    { cbn [map]. rewrite track_progress, Hpr. constructor; [lia|done]. }
    rewrite Forall_forall in Hn. rewrite Forall_forall in Hp.
    apply Forall_forall. intros r Hr.
    specialize (Hn r Hr).
    assert (progress r <= 90) as Hp'
      by (apply Hp, list_elem_of_fmap; eauto).
    split; [lia|]. split; [lia|].
    intros Hc. unfold is_terminal in Hn. rewrite Hc in Hn. done.
  - destruct Hfin as [->|(r & -> & [Hr|Hr])]; cbn [track write_record].
    + constructor.
    + destruct Hr as (Hs & Hp & _). repeat constructor; rewrite ?Hp, ?Hs; try lia.
      all: done.
    + destruct Hr as (Hs & Hp & _). repeat constructor; rewrite ?Hp, ?Hs; try lia.
      all: done.
Qed.

(** Whatever the tools print and however long they run, the progress stored
    for a job never exceeds 100, and it is 100 in the completed record and
    in no other. *)
Theorem progress_at_most_100 k j w (tasks : gmap string status_record) r :
  r ∈ job_records k j w tasks ->
  progress r <= 100 /\ (progress r = 100 <-> status r = "completed").
Proof.
  revert r. apply Forall_forall.
  destruct (job_trace_shape k j w)
    as (seed & dl & m & rest & Htr & [Hs1 Hs2] & [Hd1 Hd2] & _ & Hrest).
  unfold job_records. rewrite Htr.
  set (fw := fetch_writes (kind_name k) (fetch_lines (fetch w))) in *.
  assert (negb (is_terminal dl) = true) as Hdl
    by (unfold is_terminal; by rewrite Hd1).
  pose proof (fetch_values_le_45 (kind_name k) (fetch_lines (fetch w)) 10) as Hf.
  fold fw in Hf.
  destruct Hrest as [Hfail|(pr & m' & rest2 & -> & [Hp1 Hp2] & _ & Hend)].
  - change (Assign seed :: Assign dl :: SetProgress 10 :: SetMessage m :: fw ++ rest)
      with (Assign seed :: (Assign dl :: SetProgress 10 :: SetMessage m :: fw) ++ rest).
    apply records_bounded; try done.
    + cbn [forallb nonterminal_write]. rewrite Hdl. cbn [andb].
      apply fetch_writes_nonterminal.
    + cbn [progress_values]. rewrite Hd2.
      repeat (apply Forall_cons; split; [lia|]).
      eapply Forall_impl; [exact Hf|]. simpl. lia.
    + destruct Hfail as [->|(r' & -> & Hr')]; [by left|].
      right. exists r'. tauto.
  - set (tw := transcode_writes (kind_name k) (budget k)
                 (transcode_elapsed (transcode w))) in *.
    replace (Assign seed :: Assign dl :: SetProgress 10 :: SetMessage m
               :: fw ++ Assign pr :: SetProgress 60 :: SetMessage m' :: tw ++ rest2)
      with (Assign seed
              :: (Assign dl :: SetProgress 10 :: SetMessage m
                    :: fw ++ Assign pr :: SetProgress 60 :: SetMessage m' :: tw)
              ++ rest2)
      by (cbn [app]; by rewrite <- app_assoc).
    assert (negb (is_terminal pr) = true) as Hpr
      by (unfold is_terminal; by rewrite Hp1).
    apply records_bounded; try done.
    + cbn [forallb nonterminal_write]. rewrite Hdl. cbn [andb].
      rewrite forallb_app. unfold fw. rewrite fetch_writes_nonterminal.
      cbn [forallb nonterminal_write andb]. rewrite Hpr. cbn [andb].
      apply transcode_writes_nonterminal.
    + cbn [progress_values]. rewrite Hd2.
      repeat (apply Forall_cons; split; [lia|]).
      rewrite progress_values_app. apply Forall_app. split.
      * eapply Forall_impl; [exact Hf|]. simpl. lia.
      * cbn [progress_values]. rewrite Hp2.
        repeat (apply Forall_cons; split; [lia|]).
        apply transcode_values_le_90.
Qed.

Lemma progress_at_most_100_witness :
  completed_record "Ready for download" "/downloads/job-1.mp4"
    ∈ job_records Video demo_job steady_world ∅ /\
  progress (completed_record "Ready for download" "/downloads/job-1.mp4") <= 100.
Proof.
  assert (completed_record "Ready for download" "/downloads/job-1.mp4"
            ∈ job_records Video demo_job steady_world ∅) as H.
  { vm_compute. do 17 right. left. }
  split; [exact H|].
  exact (proj1 (progress_at_most_100 Video demo_job steady_world ∅ _ H)).
Defined.

End ProgressBound.

(** * Further properties of the format selector *)

Section SelectorProperties.
Import PyStr.

Lemma string_app_assoc (s t u : string) : (s ++ t) ++ u = s ++ t ++ u.
Proof.
  induction s as [|c s IH]; [done|].
  change (String c ((s ++ t) ++ u) = String c (s ++ t ++ u)). by rewrite IH.
Qed.

Lemma replace_p_suffix s :
  string_forall (fun c => negb (Ascii.eqb c "p")) s = true ->
  replace "p" "" (s ++ "p") = s.
Proof.
  unfold replace. induction s as [|c s IH]; [done|].
  simpl string_forall. intros [Hc Hs]%andb_prop. apply negb_true_iff in Hc.
  change ((String c s) ++ "p") with (String c (s ++ "p")).
  cbn [replace_from String.prefix].
  destruct (ascii_dec "p" c) as [<-|_]; [done|].
  by rewrite (IH Hs).
Qed.

Lemma explicit_selector_parsed vs r sa :
  vs <> "" -> PyStr.int (replace "p" "" vs) = Some r ->
  forall q, exists audio,
    audio_selector sa = Ret audio /\
    get_optimized_format_selector q (Some vs) sa
    = Ret (("bestvideo[height=" ++ str r ++ "]") ++ "+" ++ audio
             ++ "/best[height=" ++ str r ++ "]/best").
Proof.
  intros Hvs Hr q. destruct (audio_selector_total sa) as [audio Ha].
  exists audio. split; [done|].
  unfold get_optimized_format_selector, explicit_selector.
  assert (truthy (Some vs) = true) as -> by (by destruct vs).
  rewrite Ha. unfold int_of_str. by rewrite Hr.
Qed.

Lemma explicit_selector_bound vs r sa q :
  vs <> "" -> PyStr.int (replace "p" "" vs) = Some r ->
  exists expr, get_optimized_format_selector q (Some vs) sa = Ret expr /\
    filter_bound "height=" expr = Some r.
Proof.
  intros Hvs Hr.
  destruct (explicit_selector_parsed vs r sa Hvs Hr q) as (audio & Ha & Hq).
  eexists. split; [exact Hq|].
  rewrite !string_app_assoc.
  apply (filter_bound_upper "h" "eight=" "bestvideo" r
           ("+" ++ audio ++ "/best[height=" ++ str r ++ "]/best")).
  done.
Qed.



Lemma audio_selector_no_slash sa audio :
  audio_selector sa = Ret audio ->
  string_forall (fun c => negb (Ascii.eqb c "/")) audio = true.
Proof.
  unfold audio_selector. destruct sa as [sa|]; [|by intros [= <-]].
  destruct (truthy (Some sa) && contains "kbps" sa); [|by intros [= <-]].
  unfold int_of_str. destruct (PyStr.int _) as [b|]; [|by intros [= <-]].
  intros [= <-]. rewrite !string_forall_app.
  by rewrite !(str_without "/") by done.
Qed.




(** The format argument of an audio job always has three alternatives: the
    audio part, then any audio stream, then any format at all. *)
Theorem audio_argument_alternatives sa :
  exists audio, audio_selector sa = Ret audio /\
    (expr ← audio_format_argument sa; mret (split "/" expr))
    = Ret [audio; "bestaudio"; "best"].
Proof.
  destruct (audio_selector_total sa) as [audio Ha]. exists audio.
  split; [done|]. unfold audio_format_argument. rewrite Ha.
  cbn [mbind res_bind mret res_ret]. f_equal.
  change ("/bestaudio/best") with (String "/" "bestaudio/best").
  rewrite split_app_sep by (by eapply audio_selector_no_slash). done.
Qed.

End SelectorProperties.

(** * The transcoding command *)

Section CommandProperties.
#[local] Open Scope list_scope.

Variable processed_path : string -> string.

Lemma ffmpeg_cmd_output k j file :
  last (ffmpeg_cmd processed_path k j file)
  = Some (processed_path (task_id j ++ "." ++ output_extension k j)%string).
Proof.
  unfold ffmpeg_cmd, output_extension, audio_codec_arguments, known_audio_format.
  destruct k.
  - by rewrite !app_assoc, last_snoc.
  - repeat (destruct (String.eqb (output_format j) _); cbn [orb]);
      by rewrite !app_assoc, last_snoc.
Qed.

Lemma submit_output_extension k j :
  task_id (submit k j).2 = task_id j /\
  output_extension k (submit k j).2 = output_extension k j.
Proof.
  destruct k; [done|]. cbn. split; [done|].
  destruct (known_audio_format (output_format j)) eqn:E; by rewrite ?E.
Qed.

(** The file a job serves on completion is the file its transcoding command
    was told to write: the address in the completed record and the last
    argument of the command carry the same file name. *)
Theorem served_file_is_transcode_output
    k j w (tasks : gmap string status_record) r file :
  final_record k j w tasks = Some r -> status r = "completed" ->
  exists name,
    download_url r = Some ("/downloads/" ++ name)%string /\
    last (ffmpeg_cmd processed_path k (submit k j).2 file)
    = Some (processed_path name).
Proof.
  intros Hr Hst. exists (task_id j ++ "." ++ output_extension k j)%string.
  split.
  - revert Hr Hst.
    explore_job k j w; settle_final; intros [= <-];
      rewrite ?status_replay_fetch, ?status_replay_transcode;
      intros Hst; try (cbn in Hst; discriminate); cbn;
      try (destruct (known_audio_format (output_format j)) eqn:E; rewrite ?E); done.
  - rewrite ffmpeg_cmd_output.
    destruct (submit_output_extension k j) as [-> ->]. done.
Qed.

(** Trimming needs both bounds: with one of them missing or empty the
    command is the one of a request without trimming. *)
Theorem one_sided_trim_is_ignored k j file :
  truthy (trim_start j) && truthy (trim_end j) = false ->
  ffmpeg_cmd processed_path k j file
  = ffmpeg_cmd processed_path k (without_trim j) file.
Proof.
  intros H. unfold ffmpeg_cmd, trim_arguments. cbn [without_trim trim_start trim_end
    task_id output_format].
  destruct (trim_start j) as [s|], (trim_end j) as [e|]; try done.
  by rewrite H.
Qed.

(** The audio entry point replaces an unknown format by [mp3] before the
    task starts, and the task would have done the same: the command is the
    same with and without the replacement. *)
Theorem audio_command_same_after_submit j file :
  ffmpeg_cmd processed_path Audio (submit Audio j).2 file
  = ffmpeg_cmd processed_path Audio j file.
Proof.
  unfold ffmpeg_cmd, audio_codec_arguments, trim_arguments, known_audio_format.
  cbn [submit snd task_id output_format trim_start trim_end].
  unfold known_audio_format.
  destruct (String.eqb (output_format j) "mp3") eqn:E1; cbn [orb]; rewrite ?E1; [done|].
  destruct (String.eqb (output_format j) "m4a") eqn:E2; cbn [orb]; rewrite ?E1, ?E2; [done|].
  destruct (String.eqb (output_format j) "ogg") eqn:E3; cbn [orb];
    rewrite ?E1, ?E2, ?E3; [done|].
  destruct (String.eqb (output_format j) "wav") eqn:E4; cbn [orb];
    rewrite ?E1, ?E2, ?E3, ?E4; done.
Qed.

End CommandProperties.

Lemma served_file_is_transcode_output_witness :
  exists name,
    download_url (completed_record "Ready for download" "/downloads/job-1.mp4")
    = Some ("/downloads/" ++ name) /\
    last (ffmpeg_cmd (String.append "processed/") Video (submit Video demo_job).2
            "downloads/job-1.webm")
    = Some ("processed/" ++ name).
Proof.
  apply (served_file_is_transcode_output (String.append "processed/")
           Video demo_job steady_world ∅); [by vm_compute|reflexivity].
Defined.

Lemma one_sided_trim_is_ignored_witness :
  let j := {| task_id := "job-2"; url := "https://example.org/watch";
              output_format := "mp4"; quality := "best";
              trim_start := Some "00:00:10"; trim_end := None;
              selected_video_format := None; selected_audio_format := None |} in
  ffmpeg_cmd (String.append "processed/") Video j "downloads/job-2.webm"
  = ffmpeg_cmd (String.append "processed/") Video (without_trim j) "downloads/job-2.webm".
Proof.
  intros j. apply (one_sided_trim_is_ignored (String.append "processed/") Video j).
  reflexivity.
Defined.

(** * Sorting by key *)

Section SortFacts.
#[local] Open Scope list_scope.
Context {A : Type}.
Implicit Types (l : list (Z * A)).

Lemma insert_desc_perm (x : Z * A) l : insert_desc x l ≡ₚ x :: l.
Proof.
  induction l as [|y l IH]; cbn [insert_desc]; [done|].
  destruct (x.1 <? y.1); [|done].
  rewrite IH. apply Permutation_swap.
Qed.

Lemma sort_desc_perm l : sort_desc l ≡ₚ l.
Proof.
  induction l as [|x l IH]; [done|].
  cbn [sort_desc foldr]. rewrite insert_desc_perm. by constructor.
Qed.

Lemma insert_desc_sorted (x : Z * A) l :
  StronglySorted (fun a b => b.1 <= a.1) l ->
  StronglySorted (fun a b => b.1 <= a.1) (insert_desc x l).
Proof.
  induction 1 as [|y l Hl IH Hy]; cbn [insert_desc].
  - repeat constructor.
  - destruct (Z.ltb_spec x.1 y.1) as [Hlt|Hge].
    + constructor; [done|].
      rewrite insert_desc_perm. constructor; [lia|done].
    + constructor; [by constructor|].
      constructor; [done|].
      eapply Forall_impl; [exact Hy|]. cbn. intros; lia.
Qed.

Lemma sort_desc_sorted l : StronglySorted (fun a b => b.1 <= a.1) (sort_desc l).
Proof.
  induction l as [|x l IH]; [constructor|].
  cbn [sort_desc foldr]. by apply insert_desc_sorted.
Qed.

Lemma with_keys_total (key : A -> res Z) (xs : list A) :
  Forall (fun x => exists k, key x = Ret k) xs ->
  with_keys key xs = Ret (keyed key xs).
Proof.
  induction 1 as [|x xs [k Hk] _ IH]; [done|].
  cbn [with_keys]. rewrite Hk, IH. unfold keyed. cbn. by rewrite Hk.
Qed.

Lemma sorted_reverse_total (key : A -> res Z) (xs : list A) :
  Forall (fun x => exists k, key x = Ret k) xs ->
  sorted_reverse key xs = Ret (snd <$> sort_desc (keyed key xs)).
Proof. intros H. unfold sorted_reverse. by rewrite with_keys_total. Qed.

Lemma sort_desc_keyed_fst (key : A -> res Z) (xs : list A) :
  fst <$> sort_desc (keyed key xs)
  = (fun x => key_value (key x)) <$> (snd <$> sort_desc (keyed key xs)).
Proof.
  rewrite <- list_fmap_compose. apply Forall_fmap_ext_1.
  rewrite sort_desc_perm. unfold keyed. rewrite Forall_fmap.
  by apply Forall_true.
Qed.

Lemma sorted_keyed_perm (key : A -> res Z) (xs : list A) :
  snd <$> sort_desc (keyed key xs) ≡ₚ xs.
Proof.
  rewrite sort_desc_perm. unfold keyed. rewrite <- list_fmap_compose.
  by rewrite <- (list_fmap_id xs) at 2.
Qed.

End SortFacts.

Section SortedFacts.
#[local] Open Scope list_scope.


Lemma sorted_take {B} (R : relation B) (l : list B) n :
  StronglySorted R l -> StronglySorted R (take n l).
Proof.
  intros H. rewrite <- (take_drop n l) in H.
  by apply StronglySorted_app_1_l in H.
Qed.

End SortedFacts.

(** * The video information *)

Section InfoFacts.
Import PyStr Info.

Variable size_mb : Z -> string.

Lemma label_height h : int_of_str (replace "p" "" (str h ++ "p")) = Ret h.
Proof.
  rewrite replace_p_suffix by (by apply str_without). apply int_of_str_str.
Qed.


Lemma video_loop_from seen fs :
  Forall (fun v => exists f h,
            f ∈ fs /\ video_entry f = Some h /\
            resolution v = str h ++ "p" /\ resolution v ∉ seen)
         (video_loop size_mb seen fs).
Proof.
  revert seen. induction fs as [|f fs IH]; intros seen; cbn [video_loop];
    [constructor|].
  destruct (video_entry f) as [h|] eqn:E.
  - destruct (decide _) as [Hin|Hnin].
    + eapply Forall_impl; [apply IH|].
      intros v (f' & h' & ? & ? & ? & ?). exists f', h'. set_solver.
    + constructor; [exists f, h; cbn; set_solver|].
      eapply Forall_impl; [apply IH|].
      intros v (f' & h' & ? & ? & ? & ?). exists f', h'. set_solver.
  - eapply Forall_impl; [apply IH|].
    intros v (f' & h' & ? & ? & ? & ?). exists f', h'. set_solver.
Qed.



Lemma video_loop_keys seen fs :
  Forall (fun v => resolution v = str (key_value (video_key v)) ++ "p" /\
                   video_key v = Ret (key_value (video_key v)))
         (video_loop size_mb seen fs).
Proof.
  eapply Forall_impl; [apply video_loop_from|].
  intros v (f & h & _ & _ & Hv & _). unfold video_key.
  by rewrite Hv, label_height.
Qed.

Lemma kbps_label_not_unknown n : String.eqb (str n ++ "kbps") "Unknown" = false.
Proof.
  pose proof (str_decimal n) as Hd. pose proof (str_nonempty n) as Hn.
  destruct (str n) as [|c s]; [done|].
  apply String.eqb_neq. intros [= -> _].
  cbn in Hd. discriminate.
Qed.

Lemma audio_key_label a n :
  bitrate a = str n ++ "kbps" -> audio_key a = Ret n.
Proof.
  intros Ha. unfold audio_key. rewrite Ha, kbps_label_not_unknown. cbn [negb].
  rewrite replace_kbps_suffix by (by apply str_without). apply int_of_str_str.
Qed.

Lemma audio_loop_labels seen fs :
  Forall (fun a => bitrate a = "Unknown" \/ exists n, bitrate a = str n ++ "kbps")
         (audio_loop size_mb seen fs).
Proof.
  revert seen. induction fs as [|f fs IH]; intros seen; cbn [audio_loop];
    [constructor|].
  destruct (audio_entry f); [|apply IH].
  destruct (existsb _ _); [apply IH|].
  constructor; [|apply IH]. cbn [bitrate]. unfold bitrate_label.
  destruct (get_or _ _) as [q|]; [|by left].
  destruct (Qeq_bool q 0); [by left|right; by eexists].
Qed.

Lemma audio_loop_keys seen fs :
  Forall (fun a => exists k, audio_key a = Ret k) (audio_loop size_mb seen fs).
Proof.
  eapply Forall_impl; [apply audio_loop_labels|].
  intros a [Ha|[n Ha]].
  - exists 0. unfold audio_key. by rewrite Ha.
  - exists n. by apply audio_key_label.
Qed.

(** The dictionary returned when the tool exits with code 0 and prints an
    object whose formats can be iterated over. *)
Lemma fetch_info_success url d fs :
  formats_of d = Ret fs ->
  get_video_info_async size_mb url (ToolExits 0 (JsonObject d))
  = Ret {| title := get_or "Unknown" (d_title d);
           thumbnail := get (d_thumbnail d);
           duration := get (d_duration d);
           channel := get_or "Unknown" (d_channel d);
           video_formats :=
             take 8 (snd <$> sort_desc (keyed video_key (video_loop size_mb ∅ fs)));
           audio_formats :=
             take 3 (snd <$> sort_desc (keyed audio_key (audio_loop size_mb [] fs)));
           url := url |}.
Proof.
  intros Hfs. unfold get_video_info_async, fetch_info.
  cbn [run_subprocess_sync mbind res_bind Z.eqb negb]. rewrite Hfs.
  cbn [mbind res_bind].
  rewrite (sorted_reverse_total video_key)
    by (eapply Forall_impl; [apply video_loop_keys|]; intros ? [_ ?]; by eexists).
  cbn [mbind res_bind].
  rewrite (sorted_reverse_total audio_key) by apply audio_loop_keys.
  done.
Qed.

Lemma async_cases url run :
  (exists e, run = ToolFails e /\ is_Exception e = false /\
             get_video_info_async size_mb url run = Raise e) \/
  get_video_info_async size_mb url run = Ret (minimal_info url) \/
  (exists d fs, run = ToolExits 0 (JsonObject d) /\ formats_of d = Ret fs).
Proof.
  destruct run as [e|rc out].
  - unfold get_video_info_async, fetch_info. cbn.
    destruct (is_Exception e) eqn:E; [by right; left|left; by exists e].
  - destruct (Z.eqb_spec rc 0) as [->|Hrc].
    + destruct out as [| |d]; [by right; left..|].
      destruct (formats_of d) as [fs|e] eqn:E; [right; right; by exists d, fs|].
      right; left. unfold get_video_info_async, fetch_info. cbn. rewrite E. cbn.
      unfold formats_of in E. destruct (d_formats d); by simplify_eq.
    + right; left. unfold get_video_info_async, fetch_info. cbn.
      apply Z.eqb_neq in Hrc. by rewrite Hrc.
Qed.

End InfoFacts.

Section InfoProperties.
Import PyStr Info.

Variable size_mb : Z -> string.




End InfoProperties.

Section InfoClaims.
Import PyStr Info.

Variable size_mb : Z -> string.

(** A request for information is always answered with the dictionary of
    [get_video_info_async]: the endpoint's own handler is never used, and
    only an exception outside [Exception], raised while the tool is awaited,
    passes through both functions. Whenever the tool does not exit with code
    0 and print an object whose formats can be read, the answer is the fixed
    minimal dictionary. *)
Theorem info_request_always_answered url run :
  (exists i,
     get_video_info_async size_mb url run = Ret i /\
     get_video_info size_mb url run = Ret (Full i) /\
     ((forall d fs, run = ToolExits 0 (JsonObject d) -> formats_of d <> Ret fs) ->
      i = minimal_info url)) \/
  (exists e,
     run = ToolFails e /\ is_Exception e = false /\
     get_video_info_async size_mb url run = Raise e /\
     get_video_info size_mb url run = Raise e).
Proof.
  destruct (async_cases size_mb url run)
    as [(e & -> & He & Hr)|[Hr|(d & fs & -> & Hfs)]].
  - right. exists e. unfold get_video_info. by rewrite Hr, He.
  - left. exists (minimal_info url). unfold get_video_info. by rewrite Hr.
  - left. eexists. unfold get_video_info.
    rewrite (fetch_info_success size_mb url d fs Hfs).
    split; [done|]. split; [done|]. intros H. by destruct (H d fs).
Qed.

Lemma sorted_audio fs :
  let L := snd <$> sort_desc (keyed audio_key (audio_loop size_mb [] fs)) in
  let ks := (fun a => key_value (audio_key a)) <$> L in
  Forall2 (fun a k => audio_key a = Ret k) L ks /\
  StronglySorted (fun a b => b <= a) ks /\
  Forall (fun a => bitrate a = "Unknown" \/ exists n, bitrate a = str n ++ "kbps") L.
Proof.
  intros L ks.
  assert (L ≡ₚ audio_loop size_mb [] fs) as HP by apply sorted_keyed_perm.
  split; [|split].
  - unfold ks. apply Forall2_fmap_r. apply Forall_Forall2_diag.
    rewrite HP. eapply Forall_impl; [apply audio_loop_keys|].
    intros a [k Hk]. cbn. by rewrite Hk.
  - unfold ks, L. rewrite <- sort_desc_keyed_fst.
    eapply StronglySorted_fmap; [|apply sort_desc_sorted]. done.
  - rewrite HP. apply audio_loop_labels.
Qed.

(** On success the audio list has at most three entries, each labelled
    [Unknown] or with a whole number of kbps, and their sort keys never
    raise and never increase along the list. *)
Theorem audio_formats_sorted url d fs i :
  formats_of d = Ret fs ->
  get_video_info_async size_mb url (ToolExits 0 (JsonObject d)) = Ret i ->
  exists ks,
    Forall2 (fun a k => audio_key a = Ret k) (audio_formats i) ks /\
    StronglySorted (fun a b => b <= a) ks /\
    (length ks <= 3)%nat /\
    Forall (fun a => bitrate a = "Unknown" \/ exists n, bitrate a = str n ++ "kbps")
           (audio_formats i).
Proof.
  intros Hfs Hi. rewrite (fetch_info_success size_mb url d fs Hfs) in Hi.
  injection Hi as <-. cbn [audio_formats].
  destruct (sorted_audio fs) as (Hkeys & Hsort & Hlab).
  eexists (take 3 _). split; [by apply Forall2_take|].
  split; [by apply sorted_take|]. split; [rewrite length_take; lia|].
  by apply Forall_take.
Qed.

Lemma listed_labels url run i :
  get_video_info_async size_mb url run = Ret i ->
  Forall (fun v => resolution v = "best" \/ exists h, resolution v = str h ++ "p")
         (video_formats i) /\
  Forall (fun a => bitrate a = "Unknown" \/ exists n, bitrate a = str n ++ "kbps")
         (audio_formats i).
Proof.
  intros Hi.
  destruct (async_cases size_mb url run)
    as [(e & -> & He & Hr)|[Hr|(d & fs & -> & Hfs)]].
  - congruence.
  - rewrite Hr in Hi. injection Hi as <-. split.
    + constructor; [by left|constructor].
    + constructor; [right; by exists 128|constructor].
  - rewrite (fetch_info_success size_mb url d fs Hfs) in Hi.
    injection Hi as <-. cbn [video_formats audio_formats]. split.
    + apply Forall_take.
      rewrite (sorted_keyed_perm video_key).
      eapply Forall_impl; [apply video_loop_keys|].
      intros v [Hv _]. right. by eexists.
    + apply Forall_take. by destruct (sorted_audio fs) as (_ & _ & ?).
Qed.

(** Every label the information lists can be sent back as a pick: a
    resolution label selects exactly the height it names, the label [best]
    of the minimal dictionary falls back to the quality request, a bitrate
    label selects the ten kbps around the bitrate it names, and [Unknown]
    selects any audio. *)
Theorem listed_formats_are_selectable url run i q sa :
  get_video_info_async size_mb url run = Ret i ->
  (forall v, v ∈ video_formats i ->
     exists expr,
       get_optimized_format_selector q (Some (resolution v)) sa = Ret expr /\
       (resolution v = "best" /\ expr = quality_selector q \/
        exists h, resolution v = str h ++ "p" /\
                  filter_bound "height=" expr = Some h)) /\
  (forall a, a ∈ audio_formats i ->
     bitrate a = "Unknown" /\ audio_selector (Some (bitrate a)) = Ret "bestaudio" \/
     exists n, bitrate a = str n ++ "kbps" /\
               audio_selector (Some (bitrate a))
               = Ret ("bestaudio[abr<=" ++ str (n + 10)
                        ++ "][abr>=" ++ str (n - 10) ++ "]")).
Proof.
  intros Hi. destruct (listed_labels url run i Hi) as [Hv Ha].
  rewrite Forall_forall in Hv. rewrite Forall_forall in Ha. split.
  - intros v Hin. destruct (Hv v Hin) as [Hb|[h Hh]].
    + exists (quality_selector q). rewrite Hb. split; [done|by left].
    + assert (resolution v <> "") as Hne
        by (rewrite Hh; pose proof (str_nonempty h); by destruct (str h)).
      assert (PyStr.int (replace "p" "" (resolution v)) = Some h) as Hint.
      { rewrite Hh, replace_p_suffix by (by apply str_without). apply int_str. }
      destruct (explicit_selector_bound (resolution v) h sa q Hne Hint)
        as (expr & He & Hb).
      exists expr. split; [done|]. right. by exists h.
  - intros a Hin. destruct (Ha a Hin) as [Hu|[n Hn]].
    + left. split; [done|]. rewrite Hu. by apply audio_selector_unparsed; left.
    + right. exists n. split; [done|]. rewrite Hn.
      apply audio_selector_parsed, int_str.
Qed.

End InfoClaims.

Lemma sample_info_returned :
  Info.formats_of sample_data = Ret sample_formats /\
  Info.get_video_info_async sample_size_mb "https://example.org/watch"
    (Info.ToolExits 0 (Info.JsonObject sample_data)) = Ret sample_info.
Proof. split; by vm_compute. Qed.



Lemma audio_formats_sorted_witness :
  exists ks,
    Forall2 (fun a k => Info.audio_key a = Ret k) (Info.audio_formats sample_info) ks /\
    StronglySorted (fun a b => b <= a) ks.
Proof.
  destruct (audio_formats_sorted sample_size_mb
              "https://example.org/watch" sample_data sample_formats sample_info)
    as (ks & ? & ? & _); [by vm_compute..|].
  by exists ks.
Defined.

Lemma listed_formats_are_selectable_witness :
  Info.get_video_info_async sample_size_mb "https://example.org/watch"
    (Info.ToolExits 0 (Info.JsonObject sample_data)) = Ret sample_info /\
  ((forall v, v ∈ Info.video_formats sample_info ->
      exists expr,
        get_optimized_format_selector "best" (Some (Info.resolution v)) None
        = Ret expr /\
        (Info.resolution v = "best" /\ expr = quality_selector "best" \/
         exists h, Info.resolution v = PyStr.str h ++ "p" /\
                   filter_bound "height=" expr = Some h)) /\
   (forall a, a ∈ Info.audio_formats sample_info ->
      Info.bitrate a = "Unknown" /\
      audio_selector (Some (Info.bitrate a)) = Ret "bestaudio" \/
      exists n, Info.bitrate a = PyStr.str n ++ "kbps" /\
                audio_selector (Some (Info.bitrate a))
                = Ret ("bestaudio[abr<=" ++ PyStr.str (n + 10)
                         ++ "][abr>=" ++ PyStr.str (n - 10) ++ "]"))).
Proof.
  split; [by vm_compute|].
  apply (listed_formats_are_selectable sample_size_mb "https://example.org/watch"
           (Info.ToolExits 0 (Info.JsonObject sample_data)) sample_info "best" None).
  by vm_compute.
Defined.
